(** * Oobleck: pipeline schedule, P2P transport and execution engine

    A shallow embedding of [oobleck/execution/pipeline.py] and
    [oobleck/engine/execution_engine.py], with the properties stated by the
    specification proved (or refuted) over it.

    Python integers are [Z]; [//] and [%] with a positive divisor are
    [Z.div] and [Z.modulo]; a generator is the list of the values it yields;
    a method that can raise returns a [result]. *)

From stdpp Require Import base numbers list strings gmap.
From Stdlib Require Import ZArith Lia.

Set Warnings "-register-all".

(** ** Results of calls that may raise *)

Inductive result (E A : Type) : Type :=
| Ok (a : A)
| Raise (e : E).
Arguments Ok {E A} a.
Arguments Raise {E A} e.

(** Sequencing of calls: the first exception stops the rest. *)
Definition bind {E A B} (m : result E A) (k : A -> result E B) : result E B :=
  match m with
  | Ok a => k a
  | Raise e => Raise e
  end.

Declare Scope result_scope.
Delimit Scope result_scope with result.
Notation "x ← y ; z" := (bind y (fun x => z))
  (at level 20, y at level 100, z at level 200, only parsing) : result_scope.
Notation "' x ← y ; z" := (bind y (fun x => z))
  (at level 20, x pattern, y at level 100, z at level 200, only parsing)
  : result_scope.
Open Scope result_scope.

(** A Python exception deriving from [Exception]: its class name and
    [str(e)]. (KeyboardInterrupt, SystemExit and the like derive from
    BaseException only and are not values of this type.) *)
Record exception : Type := {
  exn_type : string;
  exn_str : string
}.

Definition AssertionError (msg : string) : exception :=
  {| exn_type := "AssertionError"; exn_str := msg |}.
Definition AttributeError (msg : string) : exception :=
  {| exn_type := "AttributeError"; exn_str := msg |}.
Definition IndexError (msg : string) : exception :=
  {| exn_type := "IndexError"; exn_str := msg |}.
Definition RuntimeError (msg : string) : exception :=
  {| exn_type := "RuntimeError"; exn_str := msg |}.
Definition StopIteration : exception :=
  {| exn_type := "StopIteration"; exn_str := EmptyString |}.

(** [l[i]] and [l[i] = v] on a Python list, for an index [i >= 0]: both
    raise IndexError out of range. *)
Definition getitem {A} (l : list A) (i : nat) : result exception A :=
  match l !! i with
  | Some v => Ok v
  | None => Raise (IndexError "list index out of range")
  end.

Definition setitem {A} (l : list A) (i : nat) (v : A)
  : result exception (list A) :=
  if decide (i < length l)%nat then Ok (<[i:=v]> l)
  else Raise (IndexError "list assignment index out of range").

(** ** Tensors *)

Inductive device : Type := cpu | cuda.

(** What the code needs of torch: the dtypes, the scalars a tensor holds,
    and the two dtype tables of [oobleck.execution.utils]. That module is
    not under src/, so [DTYPE_TO_ID] and [ID_TO_DTYPE] are parameters;
    [dtype] is the set of dtypes [DTYPE_TO_ID] has a code for, and
    [ID_TO_DTYPE] has no dtype ([None]) for a code outside the table. *)
Class Torch : Type := {
  dtype : Type;
  dtype_eq_dec :: EqDecision dtype;
  scalar : Type;
  zero : scalar;
  is_floating_point : dtype -> bool;
  DTYPE_TO_ID : dtype -> Z;
  ID_TO_DTYPE : Z -> option dtype
}.

Section Tensor.

Context `{Torch}.

(** A [torch.Tensor]: [size()], [dtype], [device], [requires_grad], the
    values it holds (row-major) and [.grad]. *)
Inductive tensor : Type := Tensor {
  t_size : list Z;
  t_dtype : dtype;
  t_device : device;
  t_requires_grad : bool;
  t_data : list scalar;
  t_grad : option tensor
}.

Definition numel (size : list Z) : nat :=
  Z.to_nat (foldr Z.mul 1%Z size).

(** [torch.zeros(size, device=, dtype=, requires_grad=)]. *)
Definition torch_zeros (size : list Z) (dev : device) (dt : dtype)
    (requires_grad : bool) : tensor :=
  {| t_size := size; t_dtype := dt; t_device := dev;
     t_requires_grad := requires_grad;
     t_data := replicate (numel size) zero; t_grad := None |}.

(** [torch.zeros_like(t)]. *)
Definition torch_zeros_like (t : tensor) : tensor :=
  torch_zeros (t_size t) (t_device t) (t_dtype t) false.

(** [t.clone().detach()]. *)
Definition clone_detach (t : tensor) : tensor :=
  {| t_size := t_size t; t_dtype := t_dtype t; t_device := t_device t;
     t_requires_grad := false; t_data := t_data t; t_grad := None |}.

(** [t.to(device)]. *)
Definition to_device (dev : device) (t : tensor) : tensor :=
  {| t_size := t_size t; t_dtype := t_dtype t; t_device := dev;
     t_requires_grad := t_requires_grad t; t_data := t_data t;
     t_grad := t_grad t |}.

(** [t.requires_grad = b]. *)
Definition set_requires_grad (b : bool) (t : tensor) : tensor :=
  {| t_size := t_size t; t_dtype := t_dtype t; t_device := t_device t;
     t_requires_grad := b; t_data := t_data t; t_grad := t_grad t |}.

(** The layout of a tensor: what the metadata envelope describes. *)
Definition same_layout (a b : tensor) : Prop :=
  t_size a = t_size b /\ t_dtype a = t_dtype b /\
  t_requires_grad a = t_requires_grad b.

End Tensor.

(** The microbatch buffers of a pipeline, [pipe_buffers]: three lists of
    [num_pipe_buffers] slots, each slot [None] or a tuple. *)
Record pipe_buffers (V : Type) : Type := {
  inputs : list (option V);
  labels : list (option V);
  outputs : list (option V)
}.
Arguments inputs {V} _.
Arguments labels {V} _.
Arguments outputs {V} _.

(** ** The pipeline schedule ([OobleckPipelineSchedule]) *)

Module Schedule.

Local Open Scope Z_scope.

(** The instructions of [deepspeed.runtime.pipe.schedule] that the pipeline
    dispatches on ([INSTRUCTION_MAP]); every one but [OptimizerStep] carries
    a [buffer_id]. *)
Inductive instruction : Type :=
| OptimizerStep
| LoadMicroBatch (buffer_id : Z)
| ForwardPass (buffer_id : Z)
| BackwardPass (buffer_id : Z)
| SendActivation (buffer_id : Z)
| RecvActivation (buffer_id : Z)
| SendGrad (buffer_id : Z)
| RecvGrad (buffer_id : Z).

Definition buffer_id_of (cmd : instruction) : option Z :=
  match cmd with
  | OptimizerStep => None
  | LoadMicroBatch b | ForwardPass b | BackwardPass b
  | SendActivation b | RecvActivation b | SendGrad b | RecvGrad b => Some b
  end.

(** The fields set by the constructor of the schedule:
    [OobleckPipelineSchedule(micro_batches, stages, stage_id)]. *)
Record OobleckPipelineSchedule : Type := {
  micro_batches : Z;
  stages : Z;
  stage_id : Z
}.

Section Steps.

Variable self : OobleckPipelineSchedule.

Definition prev_stage : Z := stage_id self - 1.
Definition next_stage : Z := stage_id self + 1.

(** [num_pipe_buffers], lines 95-103. *)
Definition num_pipe_buffers : Z :=
  let buffers := Z.min (stages self - stage_id self) (micro_batches self) in
  Z.max 2 buffers.

(** Modelled from the spec: the helpers below are inherited from the base
    class [deepspeed.runtime.pipe.schedule.TrainSchedule], which is not
    under src/. Section 4.1 of the specification names what they compute:
    "mb valid", "s-1 exists", "buf(mb) is mb mod num_pipe_buffers" and, for
    [_step_to_micro_batch], "the standard 1F1B interleaving"; the
    definitions are the base class's own. *)
Definition _valid_micro_batch (micro_batch_id : Z) : bool :=
  (0 <=? micro_batch_id) && (micro_batch_id <? micro_batches self).

Definition _valid_stage (stage : Z) : bool :=
  (0 <=? stage) && (stage <? stages self).

Definition _buffer_idx (micro_batch_id : Z) : Z :=
  micro_batch_id mod num_pipe_buffers.

Definition _is_even (x : Z) : bool := x mod 2 =? 0.
Definition _is_odd (x : Z) : bool := negb (x mod 2 =? 0).

Definition _even_step_forward_id (step_id : Z) : Z :=
  let base := step_id / 2 in
  base - stage_id self / 2.

Definition _odd_step_forward_id (step_id : Z) : Z :=
  let base := (step_id - 1) / 2 in
  base - stage_id self / 2.

Definition _even_step_backward_id (step_id : Z) : Z :=
  let base := step_id / 2 in
  base - stages self + (stage_id self + 1) / 2.

Definition _odd_step_backward_id (step_id : Z) : Z :=
  let base := (step_id - 1) / 2 - stages self + 1 in
  base + stage_id self / 2.

Definition _step_to_micro_batch (step_id : Z) : Z * bool :=
  if _is_even step_id && _is_even (stage_id self) then
    (_even_step_forward_id step_id, true)
  else if _is_odd step_id && _is_odd (stage_id self) then
    (_odd_step_forward_id step_id, true)
  else if _is_even step_id && _is_odd (stage_id self) then
    (_even_step_backward_id step_id, false)
  else
    (_odd_step_backward_id step_id, false).

(** The body of the loop of [steps], lines 47-87: the commands of one step,
    given the microbatch of the step before. The locals [prev_buffer] and
    [curr_buffer] are read only under the guard that assigned them in the
    same iteration, so they are computed where they are used. *)
Definition step_cmds (prev_micro_batch_id step_id : Z) : list instruction :=
  let '(micro_batch_id, is_forward) := _step_to_micro_batch step_id in
  let prev_buffer := _buffer_idx prev_micro_batch_id in
  let curr_buffer := _buffer_idx micro_batch_id in
  let cmds := [] in
  (* Exchange activations *)
  let cmds :=
    if is_forward then
      let cmds :=
        if _valid_micro_batch prev_micro_batch_id && _valid_stage prev_stage
        then cmds ++ [SendGrad prev_buffer] else cmds in
      if _valid_micro_batch micro_batch_id && _valid_stage prev_stage
      then cmds ++ [RecvActivation curr_buffer] else cmds
    else
      let cmds :=
        if _valid_micro_batch micro_batch_id && _valid_stage next_stage
        then cmds ++ [RecvGrad curr_buffer] else cmds in
      if _valid_micro_batch prev_micro_batch_id && _valid_stage next_stage
      then cmds ++ [SendActivation prev_buffer] else cmds in
  (* First/last stage loads *)
  let cmds :=
    if (stage_id self =? 0) || (stage_id self =? stages self - 1) then
      if is_forward && _valid_micro_batch micro_batch_id
      then cmds ++ [LoadMicroBatch curr_buffer] else cmds
    else cmds in
  (* Computation *)
  if _valid_micro_batch micro_batch_id then
    if is_forward then cmds ++ [ForwardPass curr_buffer]
    else cmds ++ [BackwardPass curr_buffer]
  else cmds.

(** The loop of [steps] over the step ids still to run: it yields the
    commands of the step and carries [prev_micro_batch_id] to the next. *)
Fixpoint steps_from (prev_micro_batch_id : Z) (step_ids : list Z)
  : list (list instruction) :=
  match step_ids with
  | [] => []
  | step_id :: rest =>
      let micro_batch_id := fst (_step_to_micro_batch step_id) in
      step_cmds prev_micro_batch_id step_id :: steps_from micro_batch_id rest
  end.

(** [steps], lines 43-93: the list of the yielded step groups. *)
Definition steps : list (list instruction) :=
  let prev_micro_batch_id := -1 in
  let total_steps := 2 * (micro_batches self + stages self - 1) in
  steps_from prev_micro_batch_id (seqZ 0 total_steps).

End Steps.

(** The whole instruction stream of a stage, in execution order. *)
Definition stream (self : OobleckPipelineSchedule) : list instruction :=
  concat (steps self).

Definition is_ForwardPass (cmd : instruction) : bool :=
  match cmd with ForwardPass _ => true | _ => false end.
Definition is_BackwardPass (cmd : instruction) : bool :=
  match cmd with BackwardPass _ => true | _ => false end.

(** The buffer ids that the instructions of a stage name, as a set. *)
Definition buffer_ids (self : OobleckPipelineSchedule) : gset Z :=
  list_to_set (omap buffer_id_of (stream self)).

(** Scenario 1 of the specification: two stages, four microbatches. *)
Definition smallest_pipeline (stage : Z) : OobleckPipelineSchedule :=
  {| micro_batches := 4; stages := 2; stage_id := stage |}.

(** One stage, one microbatch. *)
Definition single_microbatch : OobleckPipelineSchedule :=
  {| micro_batches := 1; stages := 1; stage_id := 0 |}.

End Schedule.

(** ** The P2P transport ([PipelineCommunication]) *)

Module Transport.

Section Transport.

Context `{Torch}.

(** What travels between two ranks: the rank-1 integer tensors that
    [torch.LongTensor(data=...)] builds for the metadata, and the tensors of
    the pipeline. There is no tag on the wire: the receiver tells them apart
    by what it expects next. *)
Inductive message : Type :=
| LongTensor (data : list Z)
| Payload (t : tensor).

(** The messages in flight from one rank to the next, oldest first. *)
Definition channel : Type := list message.

Definition is_LongTensor (m : message) : bool :=
  match m with LongTensor _ => true | Payload _ => false end.

(** The fields set by [PipelineCommunication.__init__], lines 294-298. *)
Record PipelineCommunication : Type := {
  sent_activation_meta : bool;
  activation_recv_buf : option (list tensor);
  grad_recv_buf : option (list tensor)
}.

Definition __init__ : PipelineCommunication :=
  {| sent_activation_meta := false;
     activation_recv_buf := None;
     grad_recv_buf := None |}.

(** [_send_activation_meta], lines 320-350: the messages it sends, in
    order. [buffer] is [None] when the slot holds no tuple. *)
Definition _send_activation_meta (buffer : option (list tensor))
  : result exception (list message) :=
  match buffer with
  | None =>
      Raise (AssertionError "Could not send meta type <class 'NoneType'>.")
  | Some buffer =>
      let count_tensor := LongTensor [Z.of_nat (length buffer)] in
      Ok (count_tensor ::
          flat_map (fun tensor =>
            let send_ndims := LongTensor [Z.of_nat (length (t_size tensor))] in
            let send_dtype := LongTensor [DTYPE_TO_ID (t_dtype tensor)] in
            let send_shape := LongTensor (t_size tensor) in
            let send_req_grad :=
              LongTensor [if t_requires_grad tensor then 1 else 0]%Z in
            [send_ndims; send_dtype; send_shape; send_req_grad]) buffer)
  end.

(** The four messages that [_send_activation_meta] sends for one tensor:
    [ndims], [dtype], [shape], [requires_grad]. *)
Definition tensor_meta (t : tensor) : list message :=
  [LongTensor [Z.of_nat (length (t_size t))];
   LongTensor [DTYPE_TO_ID (t_dtype t)];
   LongTensor (t_size t);
   LongTensor [if t_requires_grad t then 1 else 0]%Z].

(** [send_activations], lines 318-360: the new state of the transport and
    the messages sent to [next_rank]. *)
Definition send_activations (self : PipelineCommunication)
    (bufs : pipe_buffers (list tensor)) (buffer_id : nat)
  : result exception (PipelineCommunication * list message) :=
  outputs ← getitem (outputs bufs) buffer_id;
  '(self, meta) ←
    (if negb (sent_activation_meta self) then
       meta ← _send_activation_meta outputs;
       Ok ({| sent_activation_meta := true;
              activation_recv_buf := activation_recv_buf self;
              grad_recv_buf := grad_recv_buf self |}, meta)
     else Ok (self, []));
  match outputs with
  | None => Raise (AssertionError EmptyString)
  | Some outputs => Ok (self, meta ++ (Payload <$> outputs))
  end.

(** [_recv] into a [torch.LongTensor] of [n] elements: the next message
    fills it. A message of another kind or length is a break of the
    protocol between the ranks, and so is a channel that stays empty. *)
Definition _recv_long (n : nat) (ch : channel)
  : result exception (list Z * channel) :=
  match ch with
  | LongTensor data :: ch =>
      if decide (length data = n) then Ok (data, ch)
      else Raise (RuntimeError "ShapeMismatch")
  | _ => Raise (RuntimeError "ShapeMismatch")
  end.

(** [_recv] into [torch.LongTensor(data=[0])], then [.item()]. *)
Definition _recv_item (ch : channel) : result exception (Z * channel) :=
  '(data, ch) ← _recv_long 1 ch;
  match data with
  | [x] => Ok (x, ch)
  | _ => Raise (RuntimeError "ShapeMismatch")
  end.

(** [_recv] into a tensor of the pipeline: the payload must have its size
    and dtype, and overwrites its values in place. *)
Definition _recv_into (buffer : tensor) (ch : channel)
  : result exception (tensor * channel) :=
  match ch with
  | Payload t :: ch =>
      if decide (t_size t = t_size buffer /\ t_dtype t = t_dtype buffer)
      then Ok ({| t_size := t_size buffer; t_dtype := t_dtype buffer;
                  t_device := t_device buffer;
                  t_requires_grad := t_requires_grad buffer;
                  t_data := t_data t; t_grad := t_grad buffer |}, ch)
      else Raise (RuntimeError "ShapeMismatch")
  | _ => Raise (RuntimeError "ShapeMismatch")
  end.

(** The loop of [create_receive_buffer], lines 379-403, with [n] rounds
    left. *)
Fixpoint create_receive_buffer_loop (n : nat) (buffers : list tensor)
    (ch : channel) : result exception (list tensor * channel) :=
  match n with
  | O => Ok (buffers, ch)
  | Datatypes.S n =>
      '(recv_ndims, ch) ← _recv_item ch;
      '(recv_dtype, ch) ← _recv_item ch;
      recv_dtype ←
        match ID_TO_DTYPE recv_dtype with
        | Some dt => Ok dt
        | None => Raise (IndexError "list index out of range")
        end;
      '(recv_shape, ch) ← _recv_long (Z.to_nat recv_ndims) ch;
      '(recv_req_grad, ch) ← _recv_item ch;
      let recv_req_grad := (recv_req_grad =? 1)%Z in
      create_receive_buffer_loop n
        (buffers ++ [torch_zeros recv_shape cuda recv_dtype recv_req_grad]) ch
  end.

(** [create_receive_buffer], lines 364-404. *)
Definition create_receive_buffer (ch : channel)
  : result exception (list tensor * channel) :=
  '(num_tensors, ch) ← _recv_item ch;
  let buffers := [] in
  create_receive_buffer_loop (Z.to_nat num_tensors) buffers ch.

(** The loop of [recv_activations], lines 411-415: each persistent buffer
    is received into, then cloned into [recvd]. It returns the buffers as
    they are after the loop, and [recvd]. *)
Fixpoint recv_activations_loop (activation_recv_buf : list tensor)
    (ch : channel) : result exception (list tensor * list tensor * channel) :=
  match activation_recv_buf with
  | [] => Ok ([], [], ch)
  | buffer :: rest =>
      '(buffer, ch) ← _recv_into buffer ch;
      let recvd := set_requires_grad (t_requires_grad buffer)
                     (clone_detach buffer) in
      '(rest, recvds, ch) ← recv_activations_loop rest ch;
      Ok (buffer :: rest, recvd :: recvds, ch)
  end.

(** [recv_activations], lines 362-417. *)
Definition recv_activations (self : PipelineCommunication)
    (bufs : pipe_buffers (list tensor)) (buffer_id : nat) (ch : channel)
  : result exception
      (PipelineCommunication * pipe_buffers (list tensor) * channel) :=
  '(buf, ch) ←
    match activation_recv_buf self with
    | None => create_receive_buffer ch
    | Some buf => Ok (buf, ch)
    end;
  '(buf, recvd, ch) ← recv_activations_loop buf ch;
  inputs' ← setitem (inputs bufs) buffer_id (Some recvd);
  Ok ({| sent_activation_meta := sent_activation_meta self;
         activation_recv_buf := Some buf;
         grad_recv_buf := grad_recv_buf self |},
      {| inputs := inputs'; labels := labels bufs; outputs := outputs bufs |},
      ch).

(** The loop of [send_gradients], lines 424-430: the gradients sent to
    [prev_rank], in order. *)
Fixpoint send_gradients_loop (inputs : list tensor)
  : result exception (list message) :=
  match inputs with
  | [] => Ok []
  | buffer :: rest =>
      if negb (t_requires_grad buffer) then
        (* Skip tensors that will not produce a gradient *)
        match t_grad buffer with
        | None => send_gradients_loop rest
        | Some _ => Raise (AssertionError EmptyString)
        end
      else
        match t_grad buffer with
        | None => Raise (AssertionError EmptyString)
        | Some grad =>
            sent ← send_gradients_loop rest;
            Ok (Payload grad :: sent)
        end
  end.

(** [send_gradients], lines 419-433. *)
Definition send_gradients (bufs : pipe_buffers (list tensor))
    (buffer_id : nat)
  : result exception (pipe_buffers (list tensor) * list message) :=
  inputs_ ← getitem (inputs bufs) buffer_id;
  match inputs_ with
  | None => Raise (AssertionError EmptyString)
  | Some inputs_ =>
      sent ← send_gradients_loop inputs_;
      (* We can free up the input buffer now *)
      inputs' ← setitem (inputs bufs) buffer_id None;
      Ok ({| inputs := inputs'; labels := labels bufs;
             outputs := outputs bufs |}, sent)
  end.

(** [create_gradients_buffer], lines 437-447. *)
Definition create_gradients_buffer (tensors : list tensor) : list tensor :=
  foldl (fun buffers tensor =>
           if t_requires_grad tensor
           then buffers ++ [torch_zeros_like tensor] else buffers)
        [] tensors.

(** The loop of [recv_gradients], lines 456-457. *)
Fixpoint recv_gradients_loop (grad_recv_buf : list tensor) (ch : channel)
  : result exception (list tensor * channel) :=
  match grad_recv_buf with
  | [] => Ok ([], ch)
  | buffer :: rest =>
      '(buffer, ch) ← _recv_into buffer ch;
      '(rest, ch) ← recv_gradients_loop rest ch;
      Ok (buffer :: rest, ch)
  end.

(** [recv_gradients], lines 435-457. *)
Definition recv_gradients (self : PipelineCommunication)
    (bufs : pipe_buffers (list tensor)) (buffer_id : nat) (ch : channel)
  : result exception (PipelineCommunication * channel) :=
  outputs ← getitem (outputs bufs) buffer_id;
  match outputs with
  | None => Raise (AssertionError EmptyString)
  | Some outputs =>
      (* Allocate gradients if necessary *)
      let buf :=
        match grad_recv_buf self with
        | None => create_gradients_buffer outputs
        | Some buf => buf
        end in
      '(buf, ch) ← recv_gradients_loop buf ch;
      Ok ({| sent_activation_meta := sent_activation_meta self;
             activation_recv_buf := activation_recv_buf self;
             grad_recv_buf := Some buf |}, ch)
  end.

(** A run of [send_activations] calls on one transport, each with the
    buffers of the pipeline as they are at the call: the final state and,
    per call, the messages it sent. *)
Fixpoint send_activations_run (self : PipelineCommunication)
    (calls : list (pipe_buffers (list tensor) * nat))
  : result exception (PipelineCommunication * list (list message)) :=
  match calls with
  | [] => Ok (self, [])
  | (bufs, buffer_id) :: calls =>
      '(self, sent) ← send_activations self bufs buffer_id;
      '(self, sents) ← send_activations_run self calls;
      Ok (self, sent :: sents)
  end.

(** The tuple that a call [(bufs, buffer_id)] finds in the outputs slot,
    if the slot exists and holds one. *)
Definition call_outputs (call : pipe_buffers (list tensor) * nat)
  : option (list tensor) :=
  match outputs call.1 !! call.2 with
  | Some (Some outs) => Some outs
  | _ => None
  end.

(** A payload fits a buffer when it has its size and dtype. *)
Definition fits (buffer payload : tensor) : Prop :=
  t_size payload = t_size buffer /\ t_dtype payload = t_dtype buffer.

(** The tuple positions, counted from [i], whose tensor requires a
    gradient. *)
Fixpoint grad_positions_from (i : nat) (tensors : list tensor) : list nat :=
  match tensors with
  | [] => []
  | t :: rest =>
      if t_requires_grad t then i :: grad_positions_from (Datatypes.S i) rest
      else grad_positions_from (Datatypes.S i) rest
  end.

Definition grad_positions (tensors : list tensor) : list nat :=
  grad_positions_from 0 tensors.

(** A persistent buffer after a payload was received into it: the values
    are the payload's, the rest is the buffer's. *)
Definition received_into (buffer payload : tensor) : tensor :=
  {| t_size := t_size buffer; t_dtype := t_dtype buffer;
     t_device := t_device buffer;
     t_requires_grad := t_requires_grad buffer;
     t_data := t_data payload; t_grad := t_grad buffer |}.

(** The buffer that the receiver allocates for a tensor of the sender. *)
Definition receive_buffer_for (t : tensor) : tensor :=
  torch_zeros (t_size t) cuda (t_dtype t) (t_requires_grad t).

(** What the assertions of [send_gradients] ask of an input tensor: it has
    a [.grad] exactly when it requires one. *)
Definition grad_consistent (t : tensor) : Prop :=
  if t_requires_grad t then is_Some (t_grad t) else t_grad t = None.

End Transport.

End Transport.

(** ** The stage runtime ([PipelineExecution]) *)

Module Execution.

Section Execution.

Context `{Torch}.

(** What a batch may hold, as [_prepare_input] tells it apart: a Mapping
    (its items, in order), a tuple, a list, a tensor, or anything else. *)
Inductive data : Type :=
| Mapping (items : list (string * data))
| PyTuple (elems : list data)
| PyList (elems : list data)
| ATensor (t : tensor)
| Other (repr : string).

(** The tensor branch of [_prepare_input], lines 165-167, with
    [self.device = torch.device("cuda")]. *)
Definition _prepare_tensor (t : tensor) : tensor :=
  let data := to_device cuda (clone_detach t) in
  set_requires_grad (is_floating_point (t_dtype data)) data.

(** [_prepare_input], lines 154-168. *)
Fixpoint _prepare_input (d : data) : data :=
  match d with
  | Mapping items =>
      Mapping ((fun kv => (kv.1, _prepare_input kv.2)) <$> items)
  | PyTuple elems => PyTuple (_prepare_input <$> elems)
  | PyList elems => PyList (_prepare_input <$> elems)
  | ATensor t => ATensor (_prepare_tensor t)
  | Other repr => Other repr
  end.

(** [_prepare_inputs], lines 171-178: a tuple of the prepared values of the
    dict, in the order of its items. *)
Definition _prepare_inputs (batch : list (string * data)) : list data :=
  (fun kv => _prepare_input kv.2) <$> batch.

(** The tensors inside a value, left to right. *)
Fixpoint tensors_in (d : data) : list tensor :=
  match d with
  | Mapping items => flat_map (fun kv => tensors_in kv.2) items
  | PyTuple elems => flat_map tensors_in elems
  | PyList elems => flat_map tensors_in elems
  | ATensor t => [t]
  | Other _ => []
  end.

(** Induction on the values of a batch, through their lists. *)
Fixpoint data_nested_ind (P : data -> Prop)
    (Hmapping : forall items, Forall (fun kv => P kv.2) items -> P (Mapping items))
    (Htuple : forall elems, Forall P elems -> P (PyTuple elems))
    (Hlist : forall elems, Forall P elems -> P (PyList elems))
    (Htensor : forall t, P (ATensor t))
    (Hother : forall repr, P (Other repr))
    (d : data) : P d :=
  let rec := data_nested_ind P Hmapping Htuple Hlist Htensor Hother in
  match d with
  | Mapping items =>
      Hmapping items
        ((fix go (l : list (string * data)) : Forall (fun kv => P kv.2) l :=
            match l with
            | [] => List.Forall_nil _
            | kv :: l => List.Forall_cons _ _ _ (rec kv.2) (go l)
            end) items)
  | PyTuple elems =>
      Htuple elems
        ((fix go (l : list data) : Forall P l :=
            match l with
            | [] => List.Forall_nil _
            | x :: l => List.Forall_cons _ _ _ (rec x) (go l)
            end) elems)
  | PyList elems =>
      Hlist elems
        ((fix go (l : list data) : Forall P l :=
            match l with
            | [] => List.Forall_nil _
            | x :: l => List.Forall_cons _ _ _ (rec x) (go l)
            end) elems)
  | ATensor t => Htensor t
  | Other repr => Hother repr
  end.

(** What [load_microbatch] reads and writes: the layers of the stage (by
    their [index]), the number of layers of the model, the microbatch
    buffers of the pipeline, and the batches the dataloader iterator has
    still to yield. *)
Record PipelineExecution : Type := {
  model_layers : list Z;
  total_num_layers : Z;
  buffers : pipe_buffers (list data);
  data_iterator : list (list (string * data))
}.

(** [is_first_stage], lines 581-582: [model_layers[0]] raises on an empty
    list. *)
Definition is_first_stage (self : PipelineExecution) : result exception bool :=
  layer ← getitem (model_layers self) 0;
  Ok (layer =? 0)%Z.

(** [is_last_stage], lines 584-585: [model_layers[-1]] is the last layer. *)
Definition is_last_stage (self : PipelineExecution) : result exception bool :=
  match last (model_layers self) with
  | Some layer => Ok (layer =? total_num_layers self - 1)%Z
  | None => Raise (IndexError "list index out of range")
  end.

(** [load_microbatch], lines 180-191. *)
Definition load_microbatch (self : PipelineExecution) (buffer_id : nat)
  : result exception PipelineExecution :=
  first ← is_first_stage self;
  allowed ← (if first then Ok true else is_last_stage self);
  if negb allowed then
    Raise (AssertionError
      "load_microatch can only be called at either the first stage or the last stage.")
  else (
    first ← is_first_stage self;
    if first then
      match data_iterator self with
      | [] => Raise StopIteration
      | batch :: rest =>
          inputs' ← setitem (inputs (buffers self)) buffer_id
                      (Some (_prepare_inputs batch));
          Ok {| model_layers := model_layers self;
                total_num_layers := total_num_layers self;
                buffers := {| inputs := inputs';
                              labels := labels (buffers self);
                              outputs := outputs (buffers self) |};
                data_iterator := rest |}
      end
    else Ok self).

End Execution.

End Execution.

(** ** The engine ([ExecutionEngine]) *)

Module Engine.

(** The failure watcher thread, [notification_receive_func]: blocked in
    [recv_reconfiguration_notification], then (the flag set) shutting the
    process group down, then terminated. *)
Inductive watcher : Type := Waiting | TearingDown | Terminated.

Definition is_alive (w : watcher) : bool :=
  match w with
  | Terminated => false
  | _ => true
  end.

(** The fields of the engine that [execute], [reconfigure] and the watcher
    read and write. *)
Record ExecutionEngine : Type := {
  need_reconfiguration : bool;
  notification_receiver_thread : option watcher
}.

(** [__init__], lines 55-56. *)
Definition __init__ : ExecutionEngine :=
  {| need_reconfiguration := false; notification_receiver_thread := None |}.

(** The dataloader iterator, as far as the engine looks at it: the name of
    its class, what [getattr(dataloader_iterator, "invalidated", False)]
    gives, and whether the object takes a new attribute. An object without
    an instance dictionary (a list iterator, a generator) takes none. *)
Record iterator : Type := {
  class_name : string;
  invalidated : bool;
  takes_attributes : bool
}.

(** [setattr(dataloader_iterator, "invalidated", True)], line 244. *)
Definition setattr_invalidated (dataloader_iterator : iterator)
  : result exception iterator :=
  if takes_attributes dataloader_iterator then
    Ok {| class_name := class_name dataloader_iterator;
          invalidated := true;
          takes_attributes := true |}
  else
    Raise (AttributeError
             ("'" +:+ class_name dataloader_iterator +:+
              "' object has no attribute 'invalidated'")).

(** What a call can raise: an exception that derives from [Exception], or
    one that derives from BaseException only (KeyboardInterrupt, SystemExit,
    GeneratorExit, given by class name and [str(e)]), which
    [except Exception] does not catch. *)
Inductive throwable : Type :=
| Exc (e : exception)
| BaseExc (type_name : string) (str : string).

(** [notification_receive_func], lines 170-176, in the two steps another
    thread can tell apart. When the notification arrives, the watcher sets
    [need_reconfiguration] and starts the shutdown; when the shutdown is
    over, the thread ends. *)
Inductive watcher_event : Type := Notified | ShutdownDone.

Definition notification_receive_func (ev : watcher_event)
    (self : ExecutionEngine) : ExecutionEngine :=
  match ev, notification_receiver_thread self with
  | Notified, Some Waiting =>
      {| need_reconfiguration := true;
         notification_receiver_thread := Some TearingDown |}
  | ShutdownDone, Some TearingDown =>
      {| need_reconfiguration := need_reconfiguration self;
         notification_receiver_thread := Some Terminated |}
  | _, _ => self
  end.

(** The steps that the watcher takes, in order, while the main thread is
    between two of its own. *)
Definition watcher_steps (evs : list watcher_event) (self : ExecutionEngine)
  : ExecutionEngine :=
  foldl (fun self ev => notification_receive_func ev self) self evs.

(** [time.sleep(1)], line 204: the main thread does nothing, and the
    watcher takes the steps [evs] meanwhile (none, when the notification has
    not come or the shutdown is not over). *)
Definition sleep (evs : list watcher_event) (self : ExecutionEngine)
  : ExecutionEngine :=
  watcher_steps evs self.

(** The loop of lines 202-204. [polls] says what the watcher does during
    each sleep; the result is [None] when the watcher is still alive after
    the last of them, that is when the loop has not ended yet. *)
Fixpoint wait_for_watcher (polls : list (list watcher_event))
    (self : ExecutionEngine) : option (result exception ExecutionEngine) :=
  match notification_receiver_thread self with
  | None =>
      Some (Raise (AttributeError
              "'NoneType' object has no attribute 'is_alive'"))
  | Some w =>
      if is_alive w then
        match polls with
        | [] => None
        | evs :: polls => wait_for_watcher polls (sleep evs self)
        end
      else Some (Ok self)
  end.

(** The test of lines 236-239 on [str(e)]. *)
Definition is_teardown (e : exception) : bool :=
  String.prefix "Default process group" (exn_str e)
  || String.prefix "Connection closed" (exn_str e).

Section Execute.

(** What [booster.execute_pipeline] returns. *)
Context {outputs : Type}.

(** [execute], lines 192-245. The watcher runs in a thread of its own:
    [before] are the steps it takes after the flag was read at line 201 and
    before the thread is looked at (line 202 or 213), [polls] those it takes
    during each sleep of the wait, and [during] those it takes while the
    pipeline runs; [run] is what [booster.execute_pipeline] does at this
    call (it returns or raises). The result is the engine and the iterator
    after the call and what [execute] returns or raises; [None] when the
    wait of lines 202-204 has not ended after [polls]. *)
Definition execute (self : ExecutionEngine) (dataloader_iterator : iterator)
    (before : list watcher_event) (polls : list (list watcher_event))
    (run : result throwable outputs) (during : list watcher_event)
  : option (ExecutionEngine * iterator * result throwable (option outputs)) :=
  if need_reconfiguration self then
    let self := watcher_steps before self in
    match wait_for_watcher polls self with
    | None => None
    | Some (Raise e) => Some (self, dataloader_iterator, Raise (Exc e))
    | Some (Ok self) => Some (self, dataloader_iterator, Ok None)
    end
  else if invalidated dataloader_iterator then
    Some (self, dataloader_iterator,
          Raise (Exc (RuntimeError
            "The dataloader iterator has been invalidated. Please recreate the iterator before resuming training.")))
  else
    let self := watcher_steps before self in
    let self :=
      match notification_receiver_thread self with
      | Some w =>
          if is_alive w then self
          else {| need_reconfiguration := need_reconfiguration self;
                  notification_receiver_thread := Some Waiting |}
      | None => {| need_reconfiguration := need_reconfiguration self;
                   notification_receiver_thread := Some Waiting |}
      end in
    let self := watcher_steps during self in
    match run with
    | Ok out => Some (self, dataloader_iterator, Ok (Some out))
    | Raise (BaseExc type_name str) =>
        Some (self, dataloader_iterator, Raise (BaseExc type_name str))
    | Raise (Exc e) =>
        if negb (is_teardown e) then
          Some (self, dataloader_iterator, Raise (Exc e))
        else
          (* Failure happens and WORLD process group has been destroyed. *)
          match setattr_invalidated dataloader_iterator with
          | Ok dataloader_iterator => Some (self, dataloader_iterator, Ok None)
          | Raise e' => Some (self, dataloader_iterator, Raise (Exc e'))
          end
    end.

End Execute.

(** [reconfigure], lines 247-255; [plugin_result] is what
    [plugin.reconfigure] returns or raises. *)
Definition reconfigure {A} (self : ExecutionEngine)
    (plugin_result : result exception A)
  : ExecutionEngine * result exception A :=
  match plugin_result with
  | Ok r =>
      ({| need_reconfiguration := false;
          notification_receiver_thread := notification_receiver_thread self |},
       Ok r)
  | Raise e => (self, Raise e)
  end.

(** The states an engine can be in: those that [__init__], the watcher,
    [execute] and [reconfigure] lead to. *)
Inductive reachable : ExecutionEngine -> Prop :=
| reachable_init : reachable __init__
| reachable_watcher self ev :
    reachable self -> reachable (notification_receive_func ev self)
| reachable_execute self it before polls (run : result throwable unit) during
    self' it' r :
    reachable self ->
    execute self it before polls run during = Some (self', it', r) ->
    reachable self'
| reachable_reconfigure self (plugin_result : result exception unit) :
    reachable self -> reachable (reconfigure self plugin_result).1.

(** While the reconfiguration flag is up there is a watcher thread: the one
    that raised the flag, or the one started after it. *)
Definition flag_has_watcher (self : ExecutionEngine) : Prop :=
  need_reconfiguration self = true ->
  is_Some (notification_receiver_thread self).


(** A batch has run and the watcher is waiting; then the notification
    arrives. *)
Definition running : ExecutionEngine :=
  {| need_reconfiguration := false;
     notification_receiver_thread := Some Waiting |}.



(** An iterator of a DataLoader, which takes attributes, and the iterator
    of a list, which takes none. *)
Definition dataloader_iter : iterator :=
  {| class_name := "_SingleProcessDataLoaderIter";
     invalidated := false;
     takes_attributes := true |}.

Definition list_iterator : iterator :=
  {| class_name := "list_iterator";
     invalidated := false;
     takes_attributes := false |}.

Definition connection_closed : exception :=
  RuntimeError "Connection closed by peer".

End Engine.

(** ** The pipeline ([OobleckPipeline]) *)

Module Pipeline.

(** The values that [__init__] stores in attributes before it reads
    [my_rank]. *)
Inductive pyvalue : Type :=
| PyInt (z : Z)
| PyIntList (l : list Z)
| PyNone.

(** [self.name]: the instance dictionary has the attribute or the read
    raises (the class defines no [my_rank] and no [__getattr__]). *)
Definition getattr (self : gmap string pyvalue) (name : string)
  : result exception pyvalue :=
  match self !! name with
  | Some v => Ok v
  | None =>
      Raise (AttributeError
        ("'OobleckPipeline' object has no attribute '" +:+ name +:+ "'"))
  end.

(** The arguments of [__init__] that it looks at up to line 497, and what
    [deepspeed.comm] answers. *)
Record init_args : Type := {
  num_stages : nat;          (* len(pipeline_template.get_stages()) *)
  num_gpus_per_node : nat;   (* pipeline_template.get_num_gpus_per_node() *)
  ranks : list Z;
  dist_is_initialized : bool;
  dist_get_rank : Z
}.

(** [x in l] for a list of integers. *)
Definition py_in (x : pyvalue) (l : pyvalue) : result exception bool :=
  match x, l with
  | PyInt z, PyIntList l => Ok (bool_decide (z ∈ l))
  | _, PyIntList _ => Ok false
  | _, _ => Raise {| exn_type := "TypeError";
                     exn_str := "argument is not iterable" |}
  end.

(** [__init__], lines 478-546. Lines 488-497 are as written; lines 499-546
    are [rest], which gets the instance as line 497 leaves it. The
    statement at line 496, [self.my_rank: dist.get_rank()], is an annotated
    target without a value: inside a function Python evaluates [self],
    does not evaluate the annotation, and stores nothing. *)
Definition __init__ (args : init_args)
    (rest : gmap string pyvalue -> result exception (gmap string pyvalue))
  : result exception (gmap string pyvalue) :=
  let self : gmap string pyvalue := ∅ in
  if negb (dist_is_initialized args) then
    Raise (AssertionError "torch.distributed is not intialized.")
  else
    let num_gpus_per_node := num_gpus_per_node args in
    if negb (bool_decide
               (length (ranks args) = num_stages args * num_gpus_per_node)%nat)
    then
      Raise (AssertionError
        "Number of ranks must be equal to number of stages * num_gpus_per_node.")
    else
      let self := <["ranks" := PyIntList (ranks args)]> self in
      (* self.my_rank: dist.get_rank() *)
      let self := self in
      (my_rank ← getattr self "my_rank";
       self_ranks ← getattr self "ranks";
       member ← py_in my_rank self_ranks;
       if negb member then
         Raise (AssertionError "My rank is not in the ranks list.")
       else rest self).

(** Two stages on one GPU each, ranks 0 and 1, this worker being rank 0. *)
Definition two_stage_args : init_args :=
  {| num_stages := 2; num_gpus_per_node := 1; ranks := [0%Z; 1%Z];
     dist_is_initialized := true; dist_get_rank := 0%Z |}.

End Pipeline.

(** ** A dtype table to run the transport on *)

Module SpecTable.

(** Modelled from the spec: [oobleck.execution.utils] is not under src/;
    section 6 of the specification asks for "a compact integer mapping
    covering at least {f16, bf16, f32, f64, i8, i16, i32, i64, bool, u8}".
    [ID_TO_DTYPE] is that list, and [DTYPE_TO_ID] the position in it. *)
Inductive torch_dtype : Type :=
| float16 | bfloat16 | float32 | float64
| int8 | int16 | int32 | int64 | bool_ | uint8.

#[global] Instance torch_dtype_eq_dec : EqDecision torch_dtype.
Proof. solve_decision. Defined.

Definition ID_TO_DTYPE_list : list torch_dtype :=
  [float16; bfloat16; float32; float64; int8; int16; int32; int64; bool_; uint8].

Definition dtype_to_id (d : torch_dtype) : Z :=
  match d with
  | float16 => 0 | bfloat16 => 1 | float32 => 2 | float64 => 3
  | int8 => 4 | int16 => 5 | int32 => 6 | int64 => 7 | bool_ => 8 | uint8 => 9
  end.

Definition id_to_dtype (i : Z) : option torch_dtype :=
  if (i <? 0)%Z then None else ID_TO_DTYPE_list !! Z.to_nat i.

Definition floating (d : torch_dtype) : bool :=
  match d with
  | float16 | bfloat16 | float32 | float64 => true
  | _ => false
  end.

(** The scalars of the examples are integers: the transport only moves
    values. *)
#[global] Instance spec_torch : Torch := {|
  dtype := torch_dtype;
  scalar := Z;
  zero := 0%Z;
  is_floating_point := floating;
  DTYPE_TO_ID := dtype_to_id;
  ID_TO_DTYPE := id_to_dtype
|}.

(** A tuple of two activations: hidden states that require a gradient and
    an integer mask that does not. *)
Definition hidden_states : tensor :=
  {| t_size := [2; 3]%Z; t_dtype := float32; t_device := cuda;
     t_requires_grad := true; t_data := [1; 2; 3; 4; 5; 6]%Z;
     t_grad := None |}.

Definition attention_mask : tensor :=
  {| t_size := [2]%Z; t_dtype := int64; t_device := cuda;
     t_requires_grad := false; t_data := [1; 0]%Z; t_grad := None |}.

Definition activations : list tensor := [hidden_states; attention_mask].

(** The same activations on the next stage, after its backward pass. *)
Definition hidden_states_grad : tensor :=
  {| t_size := [2; 3]%Z; t_dtype := float32; t_device := cuda;
     t_requires_grad := false; t_data := [7; 7; 7; 7; 7; 7]%Z;
     t_grad := None |}.

Definition received_hidden_states : tensor :=
  {| t_size := [2; 3]%Z; t_dtype := float32; t_device := cuda;
     t_requires_grad := true; t_data := [1; 2; 3; 4; 5; 6]%Z;
     t_grad := Some hidden_states_grad |}.

Definition received_activations : list tensor :=
  [received_hidden_states; attention_mask].

(** Pipelines of two buffers, the first holding the activations. *)
Definition sender_buffers : pipe_buffers (list tensor) :=
  {| inputs := [None; None]; labels := [None; None];
     outputs := [Some activations; None] |}.

Definition receiver_buffers : pipe_buffers (list tensor) :=
  {| inputs := [Some received_activations; None]; labels := [None; None];
     outputs := [None; None] |}.

(** A batch of the dataloader: token ids and a float mask. *)
Definition input_ids : tensor :=
  {| t_size := [2]%Z; t_dtype := int64; t_device := cpu;
     t_requires_grad := false; t_data := [11; 12]%Z; t_grad := None |}.

Definition float_mask : tensor :=
  {| t_size := [2]%Z; t_dtype := float32; t_device := cpu;
     t_requires_grad := false; t_data := [1; 1]%Z; t_grad := None |}.

Definition batch : list (string * Execution.data) :=
  [("input_ids", Execution.ATensor input_ids);
   ("attention_mask", Execution.ATensor float_mask)].

(** The stages of a model of two layers split in two: the first stage owns
    layer 0, the last stage owns layer 1. *)
Definition first_stage : Execution.PipelineExecution :=
  {| Execution.model_layers := [0%Z];
     Execution.total_num_layers := 2;
     Execution.buffers :=
       {| inputs := [None; None]; labels := [None; None];
          outputs := [None; None] |};
     Execution.data_iterator := [batch] |}.

Definition last_stage : Execution.PipelineExecution :=
  {| Execution.model_layers := [1%Z];
     Execution.total_num_layers := 2;
     Execution.buffers :=
       {| inputs := [None; None]; labels := [None; None];
          outputs := [None; None] |};
     Execution.data_iterator := [batch] |}.

End SpecTable.

(** ** The schedule, step by step *)

Module ScheduleSteps.

Import Schedule.

Local Open Scope Z_scope.

(** The value of [prev_micro_batch_id] when the loop of [steps] enters step
    [step_id]: [-1] at the first step (line 44), and after that the
    microbatch of the step before (line 92). *)
Definition prev_micro_batch_id_at (self : OobleckPipelineSchedule)
    (step_id : Z) : Z :=
  if step_id =? 0 then -1
  else (_step_to_micro_batch self (step_id - 1)).1.

(** The group that [steps] yields at step [step_id]. *)
Definition cmds_at (self : OobleckPipelineSchedule) (step_id : Z)
  : list instruction :=
  step_cmds self (prev_micro_batch_id_at self step_id) step_id.

Definition is_p2p (cmd : instruction) : bool :=
  match cmd with
  | SendActivation _ | RecvActivation _ | SendGrad _ | RecvGrad _ => true
  | _ => false
  end.

Definition is_LoadMicroBatch (cmd : instruction) : bool :=
  match cmd with LoadMicroBatch _ => true | _ => false end.

Definition is_compute (cmd : instruction) : bool :=
  match cmd with ForwardPass _ | BackwardPass _ => true | _ => false end.

Definition is_SendActivation (cmd : instruction) : bool :=
  match cmd with SendActivation _ => true | _ => false end.
Definition is_RecvActivation (cmd : instruction) : bool :=
  match cmd with RecvActivation _ => true | _ => false end.
Definition is_SendGrad (cmd : instruction) : bool :=
  match cmd with SendGrad _ => true | _ => false end.
Definition is_RecvGrad (cmd : instruction) : bool :=
  match cmd with RecvGrad _ => true | _ => false end.

(** The schedule of the stage after this one, for the same batch. *)
Definition next_stage_schedule (self : OobleckPipelineSchedule)
  : OobleckPipelineSchedule :=
  {| micro_batches := micro_batches self;
     stages := stages self;
     stage_id := stage_id self + 1 |}.

(** What a P2P instruction puts on, or takes off, the link to the next
    stage, and the link to the previous stage. *)
Inductive wire : Type := Activation | Gradient.

Definition toward_next (cmd : instruction) : option wire :=
  match cmd with
  | SendActivation _ => Some Activation
  | RecvGrad _ => Some Gradient
  | _ => None
  end.

Definition toward_prev (cmd : instruction) : option wire :=
  match cmd with
  | RecvActivation _ => Some Activation
  | SendGrad _ => Some Gradient
  | _ => None
  end.

(** Scenario 2 of the specification: the middle stage of three. *)
Definition middle_stage : OobleckPipelineSchedule :=
  {| micro_batches := 3; stages := 3; stage_id := 1 |}.

End ScheduleSteps.

(** ** What the transport delivers *)

Module Delivery.

Section Delivery.

Context `{Torch}.

(** The tensor that [recv_activations] puts in the inputs slot for a
    persistent buffer into which [payload] was received: a detached clone
    of the buffer with the buffer's [requires_grad] (lines 414-415). *)
Definition delivered (buffer payload : tensor) : tensor :=
  set_requires_grad (t_requires_grad buffer)
    (clone_detach (Transport.received_into buffer payload)).

(** The number of messages of the envelope of a tuple of [n] tensors. *)
Definition envelope_length (n : nat) : nat := 1 + 4 * n.

End Delivery.

End Delivery.

(** ** The pipeline constructor after line 497 *)

Module PipelineRest.

Import Pipeline.

(** What lines 499-530 of [OobleckPipeline.__init__] look at: the [ranks]
    argument, [pipeline_template.get_num_gpus_per_node()], the layer range
    [get_layer_indices()] of each stage of the template, and the [index]
    of each layer of [model.model]. *)
Record rest_args : Type := {
  ra_ranks : list Z;
  ra_num_gpus_per_node : nat;
  ra_stages : list (Z * Z);
  ra_model : list Z
}.

(** [ranks.index(x)]: the first position of [x], or ValueError. *)
Definition list_index (ranks : list Z) (x : pyvalue)
  : result exception nat :=
  match x with
  | PyInt z =>
      match list_find (fun r => r = z) ranks with
      | Some (i, _) => Ok i
      | None => Raise {| exn_type := "ValueError";
                         exn_str := "x is not in list" |}
      end
  | _ => Raise {| exn_type := "ValueError"; exn_str := "x is not in list" |}
  end.

(** Lines 500-504: the rank [num_gpus_per_node] places before this one in
    [ranks], or [None] on the first stage. *)
Definition prev_rank (ranks : list Z) (num_gpus_per_node rank_index : nat)
  : result exception pyvalue :=
  if decide (num_gpus_per_node <= rank_index)%nat then
    r ← getitem ranks (rank_index - num_gpus_per_node); Ok (PyInt r)
  else Ok PyNone.

(** Lines 505-509: the rank [num_gpus_per_node] places after this one, or
    [None] on the last stage. [len(ranks) - num_gpus_per_node] is an
    integer and may be negative. *)
Definition next_rank (ranks : list Z) (num_gpus_per_node rank_index : nat)
  : result exception pyvalue :=
  if decide (Z.of_nat rank_index <
             Z.of_nat (length ranks) - Z.of_nat num_gpus_per_node)%Z then
    r ← getitem ranks (rank_index + num_gpus_per_node); Ok (PyInt r)
  else Ok PyNone.

(** [x in range(lo, hi)]. *)
Definition in_range (x : pyvalue) (lo hi : Z) : bool :=
  match x with
  | PyInt z => bool_decide (lo <= z < hi)%Z
  | _ => false
  end.

(** [l[lo:hi]] on a Python list: negative bounds count from the end, and
    bounds are clamped to the list. *)
Definition slice_bound (len : nat) (i : Z) : nat :=
  if (i <? 0)%Z then Z.to_nat (Z.max 0 (Z.of_nat len + i))
  else Nat.min (Z.to_nat i) len.

Definition py_slice {A} (l : list A) (lo hi : Z) : list A :=
  let lo := slice_bound (length l) lo in
  let hi := slice_bound (length l) hi in
  take (hi - lo) (drop lo l).

(** The loop of lines 513-523: the first stage whose layer range holds
    [my_rank] gives [model_layers] and [my_stage_index]; without one the
    instance is as it was. *)
Fixpoint find_stage (self : gmap string pyvalue) (model : list Z)
    (stage_index : nat) (stages : list (Z * Z))
  : result exception (gmap string pyvalue) :=
  match stages with
  | [] => Ok self
  | layer_indices :: stages =>
      my_rank ← getattr self "my_rank";
      if negb (in_range my_rank layer_indices.1 layer_indices.2) then
        find_stage self model (Datatypes.S stage_index) stages
      else
        let self :=
          <["model_layers" :=
              PyIntList (py_slice model layer_indices.1 layer_indices.2)]>
            self in
        let self :=
          <["my_stage_index" := PyInt (Z.of_nat stage_index)]> self in
        Ok self
  end.

(** The truth value of an object in [assert x]. *)
Definition truthy (x : pyvalue) : bool :=
  match x with
  | PyInt z => negb (z =? 0)%Z
  | PyIntList l => negb (bool_decide (l = []))
  | PyNone => false
  end.

(** Lines 499-527 of [__init__], on the instance as line 497 leaves it.
    Line 527 reads [self.execution] to build the schedule; lines 527-546
    from there on are [rest], which gets the instance and that value. *)
Definition init_rest (args : rest_args) (self : gmap string pyvalue)
    (rest : gmap string pyvalue -> pyvalue ->
            result exception (gmap string pyvalue))
  : result exception (gmap string pyvalue) :=
  let ranks := ra_ranks args in
  let num_gpus_per_node := ra_num_gpus_per_node args in
  my_rank ← getattr self "my_rank";
  rank_index ← list_index ranks my_rank;
  prev ← prev_rank ranks num_gpus_per_node rank_index;
  let self := <["prev_rank" := prev]> self in
  next ← next_rank ranks num_gpus_per_node rank_index;
  let self := <["next_rank" := next]> self in
  let self :=
    <["total_num_layers" := PyInt (Z.of_nat (length (ra_model args)))]> self in
  (* Find the stage I am responsible to execute *)
  self ← find_stage self (ra_model args) 0 (ra_stages args);
  model_layers ← getattr self "model_layers";
  if negb (truthy model_layers) then
    Raise (AssertionError "Could not find a stage to execute.")
  else (
    execution ← getattr self "execution";
    rest self execution).

(** Four ranks on two stages of two GPUs each, two layers, this worker being
    rank 0: the instance that lines 495-496 would have left, had line 496
    been an assignment. *)
Definition four_ranks : rest_args :=
  {| ra_ranks := [0; 1; 2; 3]%Z; ra_num_gpus_per_node := 2;
     ra_stages := [(0, 1); (1, 2)]%Z; ra_model := [0; 1]%Z |}.

Definition instance_with_my_rank : gmap string pyvalue :=
  <["my_rank" := PyInt 0]> (<["ranks" := PyIntList [0; 1; 2; 3]%Z]> ∅).

End PipelineRest.

(** ** The backward pass ([PipelineExecution.backward_pass]) *)

Module Backward.

Section Backward.

Context `{Torch}.

(** What the autograd engine does to the graph is outside the code: here it
    is what [torch.autograd.backward(tensors=, grad_tensors=)] and
    [loss.backward()] make of the inputs slots, whose tensors are the
    leaves that get a [.grad]; either may raise. *)
Variable autograd_backward :
  list tensor -> list tensor -> list (option (list tensor)) ->
  result exception (list (option (list tensor))).
Variable loss_backward :
  list (option (list tensor)) -> result exception (list (option (list tensor))).

Definition TypeError (msg : string) : exception :=
  {| exn_type := "TypeError"; exn_str := msg |}.

(** [backward_pass], lines 248-269. [last_stage] is what
    [self.pipeline.is_last_stage()] returns or raises, and [grad_recv_buf]
    the attribute of the transport. *)
Definition backward_pass (last_stage : result exception bool)
    (grad_recv_buf : option (list tensor))
    (bufs : pipe_buffers (list tensor)) (buffer_id : nat)
  : result exception (pipe_buffers (list tensor)) :=
  last ← last_stage;
  inputs' ←
    (if last : bool then loss_backward (inputs bufs)
     else
       output_tensors ← getitem (outputs bufs) buffer_id;
       match output_tensors with
       | None => Raise (TypeError "'NoneType' object is not iterable")
       | Some output_tensors =>
           let output_tensors :=
             List.filter t_requires_grad output_tensors in
           match grad_recv_buf with
           | None =>
               Raise (TypeError "object of type 'NoneType' has no len()")
           | Some grad_tensors =>
               (* Oobleck sharded model always returns tuple with tensors
                  and torch.Size. *)
               if negb (length output_tensors =? length grad_tensors)%nat
               then Raise (AssertionError EmptyString)
               else autograd_backward output_tensors grad_tensors
                      (inputs bufs)
           end
       end);
  (* Free up memory from the output of forward() *)
  outputs' ← setitem (outputs bufs) buffer_id None;
  Ok {| inputs := inputs'; labels := labels bufs; outputs := outputs' |}.

End Backward.

(** An autograd that fills in no gradient, to run the examples. *)
Definition no_autograd `{Torch} (tensors grad_tensors : list tensor)
    (inputs : list (option (list tensor)))
  : result exception (list (option (list tensor))) := Ok inputs.

End Backward.

(** ** More examples *)

Module MoreExamples.

Import SpecTable.

(** The next stage once the envelope of [activations] has been received. *)
Definition receiver_with_buffers : Transport.PipelineCommunication :=
  {| Transport.sent_activation_meta := false;
     Transport.activation_recv_buf :=
       Some (Transport.receive_buffer_for <$> activations);
     Transport.grad_recv_buf := None |}.

(** The sending stage with its gradient buffer allocated, and with the
    gradient of [received_hidden_states] received into it. *)
Definition sender_with_grad_buffer : Transport.PipelineCommunication :=
  {| Transport.sent_activation_meta := true;
     Transport.activation_recv_buf := None;
     Transport.grad_recv_buf := Some [torch_zeros_like hidden_states] |}.

Definition sender_after_gradients : Transport.PipelineCommunication :=
  {| Transport.sent_activation_meta := false;
     Transport.activation_recv_buf := None;
     Transport.grad_recv_buf :=
       Some [Transport.received_into (torch_zeros_like hidden_states)
               hidden_states_grad] |}.

(** The first stage with nothing left to load. *)
Definition exhausted_first_stage : Execution.PipelineExecution :=
  {| Execution.model_layers := [0%Z];
     Execution.total_num_layers := 2;
     Execution.buffers :=
       {| inputs := [None; None]; labels := [None; None];
          outputs := [None; None] |};
     Execution.data_iterator := [] |}.

End MoreExamples.

(** * Properties *)

Ltac div_lia := Z.div_mod_to_equations; lia.

(** ** Counting along a range *)

Lemma seqZ_to_nat_eq (m n1 n2 : Z) :
  Z.to_nat n1 = Z.to_nat n2 -> seqZ m n1 = seqZ m n2.
Proof. unfold seqZ. by intros ->. Qed.

(** If [G] yields one element at the steps [a], [a + 2], ..., up to [m] of
    them, and nothing elsewhere, then running [G] over the first [n] steps
    yields those of the [m] elements whose step is below [n], in order. *)
Lemma flat_map_stride {A} (G : Z -> list A) (g : Z -> A) (a m : Z) (n : nat) :
  (0 <= a)%Z ->
  (forall t : Z, (0 <= t < Z.of_nat n)%Z ->
     G t = if bool_decide (a <= t /\ (t - a) mod 2 = 0 /\ (t - a) / 2 < m)%Z
           then [g ((t - a) / 2)%Z] else []) ->
  flat_map G (seqZ 0 (Z.of_nat n)) =
  g <$> seqZ 0 (Z.min m ((Z.of_nat n + 1 - a) / 2)).
Proof.
  intros Ha. induction n as [|n IH]; intros HG.
  - simpl. rewrite (seqZ_nil 0 (Z.min _ _)) by div_lia. done.
  - rewrite seqZ_S, flat_map_app, IH by (intros; apply HG; lia).
    simpl. rewrite app_nil_r, Z.add_0_l, HG by lia.
    case_bool_decide as Hd.
    + destruct Hd as (H1 & H2 & H3).
      assert (Hi : (0 <= (Z.of_nat n - a) / 2)%Z) by div_lia.
      replace (Z.min m ((Z.of_nat n + 1 - a) / 2)) with
        (Z.of_nat (Z.to_nat ((Z.of_nat n - a) / 2))) by div_lia.
      replace (Z.min m ((Z.of_nat (Datatypes.S n) + 1 - a) / 2)) with
        (Z.of_nat (Datatypes.S (Z.to_nat ((Z.of_nat n - a) / 2)))) by div_lia.
      rewrite seqZ_S, fmap_app. simpl. do 3 f_equal. lia.
    + rewrite app_nil_r. f_equal. apply seqZ_to_nat_eq.
      destruct (decide (a <= Z.of_nat n)%Z); [|div_lia].
      destruct (decide ((Z.of_nat n - a) mod 2 = 0)%Z); [|div_lia].
      assert (m <= (Z.of_nat n - a) / 2)%Z by lia. div_lia.
Qed.

(** ** The schedule *)

Section ScheduleFacts.

Import Schedule.
Local Open Scope Z_scope.

Variable self : OobleckPipelineSchedule.

Abbreviation M := (micro_batches self).
Abbreviation NS := (stages self).
Abbreviation sid := (stage_id self).

(** Where the 1F1B mapping sends a step: forward steps have the parity of
    the stage and carry microbatch [(t - sid) / 2]; the others are backward
    steps and carry microbatch [(t - (2S - s - 1)) / 2]. *)
Lemma step_to_micro_batch_cases (t : Z) :
  ((t - sid) mod 2 = 0 /\
   _step_to_micro_batch self t = ((t - sid) / 2, true)) \/
  ((t - sid) mod 2 = 1 /\
   _step_to_micro_batch self t = ((t - (2 * NS - sid - 1)) / 2, false)).
Proof.
  unfold _step_to_micro_batch, _is_even, _is_odd, _even_step_forward_id,
    _odd_step_forward_id, _even_step_backward_id, _odd_step_backward_id.
  destruct (Z.eqb_spec (t mod 2) 0) as [Ht|Ht],
           (Z.eqb_spec (sid mod 2) 0) as [Hs|Hs]; simpl;
    [left|right|right|left]; (split; [|f_equal]); div_lia.
Qed.

(** What each command of a step says about the step. *)
Lemma elem_of_step_cmds (prev t : Z) (cmd : instruction) :
  cmd ∈ step_cmds self prev t ->
  let mb := (_step_to_micro_batch self t).1 in
  let fwd := (_step_to_micro_batch self t).2 in
  match cmd with
  | OptimizerStep => False
  | SendGrad b =>
      fwd = true /\ _valid_micro_batch self prev = true /\
      _valid_stage self (prev_stage self) = true /\ b = _buffer_idx self prev
  | RecvActivation b =>
      fwd = true /\ _valid_micro_batch self mb = true /\
      _valid_stage self (prev_stage self) = true /\ b = _buffer_idx self mb
  | RecvGrad b =>
      fwd = false /\ _valid_micro_batch self mb = true /\
      _valid_stage self (next_stage self) = true /\ b = _buffer_idx self mb
  | SendActivation b =>
      fwd = false /\ _valid_micro_batch self prev = true /\
      _valid_stage self (next_stage self) = true /\ b = _buffer_idx self prev
  | LoadMicroBatch b =>
      fwd = true /\ _valid_micro_batch self mb = true /\
      (sid = 0 \/ sid = NS - 1) /\ b = _buffer_idx self mb
  | ForwardPass b =>
      fwd = true /\ _valid_micro_batch self mb = true /\ b = _buffer_idx self mb
  | BackwardPass b =>
      fwd = false /\ _valid_micro_batch self mb = true /\ b = _buffer_idx self mb
  end.
Proof.
  unfold step_cmds.
  destruct (_step_to_micro_batch self t) as [mb fwd]; simpl.
  destruct (Z.eqb_spec sid 0), (Z.eqb_spec sid (NS - 1)),
    fwd, (_valid_micro_batch self prev), (_valid_micro_batch self mb),
    (_valid_stage self (prev_stage self)),
    (_valid_stage self (next_stage self)); simpl; intros H;
    repeat (apply elem_of_cons in H as [->|H]);
    try (by apply elem_of_nil in H); auto 6.
Qed.

(** A step holds a ForwardPass exactly when it is a forward step of a valid
    microbatch, and then only that one; likewise for BackwardPass. *)
Lemma filter_ForwardPass_step_cmds (prev t : Z) :
  List.filter is_ForwardPass (step_cmds self prev t) =
  let '(mb, fwd) := _step_to_micro_batch self t in
  if fwd && _valid_micro_batch self mb
  then [ForwardPass (_buffer_idx self mb)] else [].
Proof.
  unfold step_cmds.
  destruct (_step_to_micro_batch self t) as [mb fwd].
  destruct (sid =? 0), (sid =? NS - 1),
    fwd, (_valid_micro_batch self prev), (_valid_micro_batch self mb),
    (_valid_stage self (prev_stage self)),
    (_valid_stage self (next_stage self)); reflexivity.
Qed.

Lemma filter_BackwardPass_step_cmds (prev t : Z) :
  List.filter is_BackwardPass (step_cmds self prev t) =
  let '(mb, fwd) := _step_to_micro_batch self t in
  if negb fwd && _valid_micro_batch self mb
  then [BackwardPass (_buffer_idx self mb)] else [].
Proof.
  unfold step_cmds.
  destruct (_step_to_micro_batch self t) as [mb fwd].
  destruct (sid =? 0), (sid =? NS - 1),
    fwd, (_valid_micro_batch self prev), (_valid_micro_batch self mb),
    (_valid_stage self (prev_stage self)),
    (_valid_stage self (next_stage self)); reflexivity.
Qed.

Lemma length_steps_from (prev : Z) (ids : list Z) :
  length (steps_from self prev ids) = length ids.
Proof. revert prev; induction ids as [|t ids IH]; intros prev; simpl; auto. Qed.

(** The [k]-th yielded group is the loop body at the [k]-th step id, for
    the microbatch the loop carried there. *)
Lemma lookup_steps_from (prev : Z) (ids : list Z) (k : nat) (t : Z) :
  ids !! k = Some t ->
  exists prev', steps_from self prev ids !! k = Some (step_cmds self prev' t) /\
    (prev' = prev \/ exists t', t' ∈ ids /\ prev' = (_step_to_micro_batch self t').1).
Proof.
  revert prev k; induction ids as [|t0 ids IH]; intros prev k Hk; [done|].
  destruct k as [|k]; simpl in *.
  - injection Hk as ->. eauto.
  - destruct (IH (_step_to_micro_batch self t0).1 k Hk) as (p & Hp & Hor).
    exists p; split; [done|]. right.
    destruct Hor as [->|(t' & Ht' & ->)].
    + exists t0; split; [left|done].
    + exists t'; split; [by right|done].
Qed.

Lemma filter_concat_steps_from (f : instruction -> bool)
    (G : Z -> list instruction) (prev : Z) (ids : list Z) :
  (forall p t, List.filter f (step_cmds self p t) = G t) ->
  List.filter f (concat (steps_from self prev ids)) = flat_map G ids.
Proof.
  intros HG. revert prev; induction ids as [|t ids IH]; intros prev; [done|].
  simpl. rewrite List.filter_app, HG, IH. done.
Qed.

Lemma length_steps :
  Z.of_nat (length (steps self)) = Z.max 0 (2 * (M + NS - 1)).
Proof. unfold steps. rewrite length_steps_from, length_seqZ. lia. Qed.

Lemma lookup_steps (t : Z) :
  0 <= t < 2 * (M + NS - 1) ->
  exists prev, steps self !! Z.to_nat t = Some (step_cmds self prev t).
Proof.
  intros Ht. unfold steps.
  destruct (lookup_steps_from (-1) (seqZ 0 (2 * (M + NS - 1))) (Z.to_nat t) t)
    as (p & Hp & _); [|eauto].
  rewrite lookup_seqZ_lt by lia. f_equal. lia.
Qed.

Lemma ForwardPass_in_step_cmds (prev t mb : Z) :
  _step_to_micro_batch self t = (mb, true) ->
  _valid_micro_batch self mb = true ->
  ForwardPass (_buffer_idx self mb) ∈ step_cmds self prev t.
Proof.
  intros Ht Hv. apply list_elem_of_In.
  apply (proj1 (List.filter_In is_ForwardPass _ _)).
  rewrite filter_ForwardPass_step_cmds, Ht, Hv. simpl. auto.
Qed.

Lemma BackwardPass_in_step_cmds (prev t mb : Z) :
  _step_to_micro_batch self t = (mb, false) ->
  _valid_micro_batch self mb = true ->
  BackwardPass (_buffer_idx self mb) ∈ step_cmds self prev t.
Proof.
  intros Ht Hv. apply list_elem_of_In.
  apply (proj1 (List.filter_In is_BackwardPass _ _)).
  rewrite filter_BackwardPass_step_cmds, Ht, Hv. simpl. auto.
Qed.

Lemma valid_micro_batch_true (i : Z) :
  _valid_micro_batch self i = true <-> 0 <= i < M.
Proof. unfold _valid_micro_batch. lia. Qed.

(** The ForwardPass instructions of the stream are those of the
    microbatches [0 .. M-1], once each and in this order. *)
Lemma forward_passes_of_stream :
  1 <= M -> 1 <= NS -> 0 <= sid < NS ->
  List.filter is_ForwardPass (stream self) =
  (fun i => ForwardPass (_buffer_idx self i)) <$> seqZ 0 M.
Proof.
  intros HM HS Hs. unfold stream, steps.
  rewrite (filter_concat_steps_from is_ForwardPass _ _ _
             (fun p t => filter_ForwardPass_step_cmds p t)).
  replace (2 * (M + NS - 1)) with (Z.of_nat (Z.to_nat (2 * (M + NS - 1)))) by lia.
  rewrite (flat_map_stride _ (fun i => ForwardPass (_buffer_idx self i)) sid M);
    [ | lia | ].
  - do 2 f_equal. div_lia.
  - intros t Ht.
    destruct (step_to_micro_batch_cases t) as [[Hp ->]|[Hp ->]]; simpl;
      unfold _valid_micro_batch; case_bool_decide as Hd;
      try destruct Hd as (? & ? & ?);
      repeat
        match goal with
        | |- context [Z.leb ?x ?y] => destruct (Z.leb_spec x y)
        | |- context [Z.ltb ?x ?y] => destruct (Z.ltb_spec x y)
        end; simpl; try done; exfalso; div_lia.
Qed.

Lemma backward_passes_of_stream :
  1 <= M -> 1 <= NS -> 0 <= sid < NS ->
  List.filter is_BackwardPass (stream self) =
  (fun i => BackwardPass (_buffer_idx self i)) <$> seqZ 0 M.
Proof.
  intros HM HS Hs. unfold stream, steps.
  rewrite (filter_concat_steps_from is_BackwardPass _ _ _
             (fun p t => filter_BackwardPass_step_cmds p t)).
  replace (2 * (M + NS - 1)) with (Z.of_nat (Z.to_nat (2 * (M + NS - 1)))) by lia.
  rewrite (flat_map_stride _ (fun i => BackwardPass (_buffer_idx self i))
             (2 * NS - sid - 1) M);
    [ | lia | ].
  - do 2 f_equal. div_lia.
  - intros t Ht.
    destruct (step_to_micro_batch_cases t) as [[Hp ->]|[Hp ->]]; simpl;
      unfold _valid_micro_batch; case_bool_decide as Hd;
      try destruct Hd as (? & ? & ?);
      repeat
        match goal with
        | |- context [Z.leb ?x ?y] => destruct (Z.leb_spec x y)
        | |- context [Z.ltb ?x ?y] => destruct (Z.ltb_spec x y)
        end; simpl; try done; exfalso; div_lia.
Qed.

Lemma elem_of_stream (cmd : instruction) :
  cmd ∈ stream self -> exists prev t, cmd ∈ step_cmds self prev t.
Proof.
  unfold stream, steps. generalize (-1) (seqZ 0 (2 * (M + NS - 1))).
  intros prev ids; revert prev.
  induction ids as [|t ids IH]; intros prev; simpl.
  - intros H. by apply elem_of_nil in H.
  - intros [H|H]%elem_of_app; eauto.
Qed.

(** C1. For M >= 1, S >= 1 and 0 <= s < S, [steps] yields exactly
    2*(M+S-1) step groups; the stream holds exactly M ForwardPass and
    exactly M BackwardPass instructions; and for every microbatch i there is
    one forward step [tf] and one backward step [tb] of i, the groups
    yielded there hold the ForwardPass and the BackwardPass of i's buffer,
    and [tf] comes before [tb]. *)
Theorem steps_forward_before_backward :
  1 <= M -> 1 <= NS -> 0 <= sid < NS ->
  Z.of_nat (length (steps self)) = 2 * (M + NS - 1) /\
  Z.of_nat (length (List.filter is_ForwardPass (stream self))) = M /\
  Z.of_nat (length (List.filter is_BackwardPass (stream self))) = M /\
  forall i : Z, 0 <= i < M ->
    exists tf tb : Z,
      0 <= tf < tb /\ tb < 2 * (M + NS - 1) /\
      _step_to_micro_batch self tf = (i, true) /\
      _step_to_micro_batch self tb = (i, false) /\
      (forall t, _step_to_micro_batch self t = (i, true) -> t = tf) /\
      (forall t, _step_to_micro_batch self t = (i, false) -> t = tb) /\
      (exists cmds, steps self !! Z.to_nat tf = Some cmds /\
                    ForwardPass (_buffer_idx self i) ∈ cmds) /\
      (exists cmds, steps self !! Z.to_nat tb = Some cmds /\
                    BackwardPass (_buffer_idx self i) ∈ cmds).
Proof.
  intros HM HS Hs. repeat split.
  - rewrite length_steps. lia.
  - rewrite forward_passes_of_stream, length_fmap, length_seqZ by done. lia.
  - rewrite backward_passes_of_stream, length_fmap, length_seqZ by done. lia.
  - intros i Hi.
    assert (Hf : _step_to_micro_batch self (sid + 2 * i) = (i, true)).
    { destruct (step_to_micro_batch_cases (sid + 2 * i)) as [[Hp ->]|[Hp ->]];
        [f_equal|exfalso]; div_lia. }
    assert (Hb : _step_to_micro_batch self (2 * NS - sid - 1 + 2 * i) = (i, false)).
    { destruct (step_to_micro_batch_cases (2 * NS - sid - 1 + 2 * i))
        as [[Hp ->]|[Hp ->]]; [exfalso|f_equal]; div_lia. }
    assert (Hv : _valid_micro_batch self i = true)
      by by apply valid_micro_batch_true.
    exists (sid + 2 * i), (2 * NS - sid - 1 + 2 * i).
    split; [lia|]. split; [lia|]. do 2 (split; [done|]).
    split; [|split; [|split]].
    + intros t Ht.
      destruct (step_to_micro_batch_cases t) as [[Hp Heq]|[Hp Heq]];
        rewrite Heq in Ht; [|done].
      injection Ht as Ht. div_lia.
    + intros t Ht.
      destruct (step_to_micro_batch_cases t) as [[Hp Heq]|[Hp Heq]];
        rewrite Heq in Ht; [done|].
      injection Ht as Ht. div_lia.
    + destruct (lookup_steps (sid + 2 * i)) as [p Hp]; [lia|].
      exists (step_cmds self p (sid + 2 * i)); split; [done|].
      by apply ForwardPass_in_step_cmds.
    + destruct (lookup_steps (2 * NS - sid - 1 + 2 * i)) as [p Hp]; [lia|].
      exists (step_cmds self p (2 * NS - sid - 1 + 2 * i)); split; [done|].
      by apply BackwardPass_in_step_cmds.
Qed.

(** C2. No instruction of the stream of stage 0 is a RecvActivation or a
    SendGrad, and none of the stream of stage S-1 is a SendActivation or a
    RecvGrad (for every M, S and s, so in particular for M >= 1, S >= 1 and
    0 <= s < S). *)
Theorem steps_skip_missing_neighbour (cmd : instruction) :
  cmd ∈ stream self ->
  (sid = 0 -> forall b, cmd <> RecvActivation b /\ cmd <> SendGrad b) /\
  (sid = NS - 1 -> forall b, cmd <> SendActivation b /\ cmd <> RecvGrad b).
Proof.
  intros (prev & t & Hcmd)%elem_of_stream.
  apply elem_of_step_cmds in Hcmd.
  unfold _valid_stage, prev_stage, next_stage in Hcmd.
  split; intros Hs b; split; intros ->; simpl in Hcmd; lia.
Qed.

(** Every buffer id that the stream names is the buffer of a valid
    microbatch. *)
Lemma buffer_id_of_stream (cmd : instruction) (b : Z) :
  cmd ∈ stream self -> buffer_id_of cmd = Some b ->
  exists i, 0 <= i < M /\ b = _buffer_idx self i.
Proof.
  intros (prev & t & Hcmd)%elem_of_stream Hb.
  apply elem_of_step_cmds in Hcmd.
  destruct cmd; simpl in Hb; try done; injection Hb as ->;
    simpl in Hcmd; destruct_and!;
    eexists; (split; [by apply valid_micro_batch_true|done]).
Qed.

Lemma buffer_ids_range :
  1 <= M -> 1 <= NS -> 0 <= sid < NS ->
  buffer_ids self = list_to_set (seqZ 0 (Z.min M (num_pipe_buffers self))).
Proof.
  intros HM HS Hs. apply set_eq; intros b. unfold buffer_ids.
  rewrite !elem_of_list_to_set, list_elem_of_omap, elem_of_seqZ.
  assert (HB : 2 <= num_pipe_buffers self) by (unfold num_pipe_buffers; lia).
  split.
  - intros (cmd & Hcmd & Hb).
    destruct (buffer_id_of_stream cmd b Hcmd Hb) as (i & Hi & ->).
    unfold _buffer_idx.
    pose proof (Z.mod_pos_bound i (num_pipe_buffers self)).
    pose proof (Z.mod_le i (num_pipe_buffers self)). lia.
  - intros Hb. exists (ForwardPass b); split; [|done].
    assert (Hin : ForwardPass b ∈ List.filter is_ForwardPass (stream self)).
    { rewrite forward_passes_of_stream by done.
      apply list_elem_of_fmap. exists b; split.
      - unfold _buffer_idx. rewrite Z.mod_small by lia. done.
      - apply elem_of_seqZ. lia. }
    apply list_elem_of_In, List.filter_In in Hin as [Hin _].
    by apply list_elem_of_In.
Qed.

(** C8, as the code has it. For M >= 1, S >= 1 and 0 <= s < S the number of
    distinct buffer ids in the stream of stage s is min(M, num_pipe_buffers),
    where num_pipe_buffers = max(2, min(S-s, M)); it is num_pipe_buffers
    itself as soon as M >= 2. *)
Theorem distinct_buffer_ids :
  1 <= M -> 1 <= NS -> 0 <= sid < NS ->
  num_pipe_buffers self = Z.max 2 (Z.min (NS - sid) M) /\
  Z.of_nat (size (buffer_ids self)) = Z.min M (num_pipe_buffers self) /\
  (2 <= M -> Z.of_nat (size (buffer_ids self)) = num_pipe_buffers self).
Proof.
  intros HM HS Hs. split; [done|].
  rewrite buffer_ids_range, size_list_to_set, length_seqZ
    by first [done | apply NoDup_seqZ].
  unfold num_pipe_buffers. lia.
Qed.

End ScheduleFacts.

Section ScheduleExamples.

Import Schedule.
Local Open Scope Z_scope.

(** Scenario 1 of the specification: the streams of the two stages. *)
Example steps_smallest_pipeline_stage_0 :
  steps (smallest_pipeline 0) =
  [ [LoadMicroBatch 0; ForwardPass 0];
    [SendActivation 0];
    [LoadMicroBatch 1; ForwardPass 1];
    [RecvGrad 0; SendActivation 1; BackwardPass 0];
    [LoadMicroBatch 0; ForwardPass 0];
    [RecvGrad 1; SendActivation 0; BackwardPass 1];
    [LoadMicroBatch 1; ForwardPass 1];
    [RecvGrad 0; SendActivation 1; BackwardPass 0];
    [];
    [RecvGrad 1; BackwardPass 1] ].
Proof. reflexivity. Qed.

Example steps_smallest_pipeline_stage_1 :
  steps (smallest_pipeline 1) =
  [ [];
    [RecvActivation 0; LoadMicroBatch 0; ForwardPass 0];
    [BackwardPass 0];
    [SendGrad 0; RecvActivation 1; LoadMicroBatch 1; ForwardPass 1];
    [BackwardPass 1];
    [SendGrad 1; RecvActivation 0; LoadMicroBatch 0; ForwardPass 0];
    [BackwardPass 0];
    [SendGrad 0; RecvActivation 1; LoadMicroBatch 1; ForwardPass 1];
    [BackwardPass 1];
    [SendGrad 1] ].
Proof. reflexivity. Qed.

(** Scenario 2: three stages, three microbatches. *)
Example num_pipe_buffers_odd_stages :
  (fun stage => num_pipe_buffers
     {| micro_batches := 3; stages := 3; stage_id := stage |}) <$> [0; 1; 2] =
  [3; 2; 2].
Proof. reflexivity. Qed.

(** With one microbatch a stage names one buffer, though it owns two. *)
Lemma distinct_buffer_ids_single_microbatch :
  1 <= micro_batches single_microbatch /\
  1 <= stages single_microbatch /\
  0 <= stage_id single_microbatch < stages single_microbatch /\
  stream single_microbatch =
    [LoadMicroBatch 0; ForwardPass 0; BackwardPass 0] /\
  Z.of_nat (size (buffer_ids single_microbatch)) = 1 /\
  Z.of_nat (size (buffer_ids single_microbatch)) <>
  Z.max 2 (Z.min (stages single_microbatch - stage_id single_microbatch)
                 (micro_batches single_microbatch)).
Proof.
  assert (H : Z.of_nat (size (buffer_ids single_microbatch)) = 1).
  { rewrite buffer_ids_range, size_list_to_set
      by (simpl; first [lia|apply NoDup_seqZ]).
    done. }
  rewrite H. repeat split; done.
Qed.

(** Scenario 1: stage 0 of two stages, four microbatches. *)
Lemma steps_forward_before_backward_witness :
  (1 <= 4 /\ 1 <= 2 /\ 0 <= 0 < 2) /\
  Z.of_nat (length (steps (smallest_pipeline 0))) = 10 /\
  Z.of_nat (length (List.filter is_ForwardPass (stream (smallest_pipeline 0)))) = 4 /\
  Z.of_nat (length (List.filter is_BackwardPass (stream (smallest_pipeline 0)))) = 4 /\
  exists tf tb : Z,
    0 <= tf < tb /\
    _step_to_micro_batch (smallest_pipeline 0) tf = (3, true) /\
    _step_to_micro_batch (smallest_pipeline 0) tb = (3, false).
Proof.
  split; [lia|].
  destruct (steps_forward_before_backward (smallest_pipeline 0))
    as (H1 & H2 & H3 & H4); [simpl; lia..|].
  destruct (H4 3) as (tf & tb & Ht & _ & Hf & Hb & _); [simpl; lia|].
  split; [exact H1|]. split; [exact H2|]. split; [exact H3|].
  exists tf, tb. split; [exact Ht|]. split; [exact Hf|exact Hb].
Defined.

Lemma steps_skip_missing_neighbour_witness :
  ForwardPass 0 ∈ stream (smallest_pipeline 0) /\
  (forall b, ForwardPass 0 <> RecvActivation b /\ ForwardPass 0 <> SendGrad b).
Proof.
  assert (Hin : ForwardPass 0 ∈ stream (smallest_pipeline 0)).
  { apply list_elem_of_In. vm_compute. tauto. }
  split; [exact Hin|].
  exact (proj1 (steps_skip_missing_neighbour (smallest_pipeline 0)
                  (ForwardPass 0) Hin) eq_refl).
Defined.

Lemma distinct_buffer_ids_witness :
  (1 <= 4 /\ 1 <= 2 /\ 0 <= 0 < 2) /\
  Z.of_nat (size (buffer_ids (smallest_pipeline 0))) = 2.
Proof.
  split; [lia|].
  destruct (distinct_buffer_ids (smallest_pipeline 0)) as (_ & _ & H);
    [simpl; lia..|].
  apply H. simpl. lia.
Defined.

End ScheduleExamples.

(** ** The transport *)

Section TransportFacts.

Import Transport.

Context `{Torch}.

Lemma _recv_long_ok (n : nat) (data : list Z) (ch : channel) :
  length data = n -> _recv_long n (LongTensor data :: ch) = Ok (data, ch).
Proof. intros Hn. simpl. by rewrite decide_True. Qed.

Lemma _recv_item_ok (x : Z) (ch : channel) :
  _recv_item (LongTensor [x] :: ch) = Ok (x, ch).
Proof. reflexivity. Qed.

Lemma _recv_into_ok (buffer t : tensor) (ch : channel) :
  t_size t = t_size buffer -> t_dtype t = t_dtype buffer ->
  _recv_into buffer (Payload t :: ch) = Ok (received_into buffer t, ch).
Proof. intros Hs Hd. simpl. by rewrite decide_True. Qed.

Lemma _send_activation_meta_Some (buffer : list tensor) :
  _send_activation_meta (Some buffer) =
  Ok (LongTensor [Z.of_nat (length buffer)] :: flat_map tensor_meta buffer).
Proof. reflexivity. Qed.

Section RoundTrip.

Hypothesis table_inverse :
  forall d : dtype, ID_TO_DTYPE (DTYPE_TO_ID d) = Some d.

Lemma create_receive_buffer_loop_meta (tensors buffers : list tensor)
    (rest : channel) :
  create_receive_buffer_loop (length tensors) buffers
    (flat_map tensor_meta tensors ++ rest) =
  Ok (buffers ++ (receive_buffer_for <$> tensors), rest).
Proof using table_inverse.
  revert buffers; induction tensors as [|t tensors IH]; intros buffers.
  - simpl. by rewrite app_nil_r.
  - cbn [length flat_map tensor_meta app create_receive_buffer_loop].
    rewrite _recv_item_ok. cbn [bind].
    rewrite _recv_item_ok. cbn [bind].
    rewrite table_inverse. cbn [bind].
    rewrite _recv_long_ok by (by rewrite Nat2Z.id). cbn [bind].
    rewrite _recv_item_ok. cbn [bind].
    rewrite IH, <- app_assoc. do 3 f_equal. simpl. f_equal.
    unfold receive_buffer_for. f_equal. by destruct (t_requires_grad t).
Qed.

Lemma create_receive_buffer_meta (tensors : list tensor) (rest : channel) :
  create_receive_buffer
    (LongTensor [Z.of_nat (length tensors)] :: flat_map tensor_meta tensors
       ++ rest) =
  Ok (receive_buffer_for <$> tensors, rest).
Proof using table_inverse.
  unfold create_receive_buffer. rewrite _recv_item_ok. cbn [bind].
  rewrite Nat2Z.id. apply create_receive_buffer_loop_meta.
Qed.

End RoundTrip.

Lemma receive_buffer_for_layout (tensors : list tensor) :
  Forall2 same_layout (receive_buffer_for <$> tensors) tensors.
Proof.
  induction tensors; constructor; [by repeat split|done].
Qed.

Lemma recv_activations_loop_payloads (buf ts : list tensor) (rest : channel) :
  Forall2 fits buf ts ->
  recv_activations_loop buf ((Payload <$> ts) ++ rest) =
  Ok (zip_with received_into buf ts,
      (fun b => set_requires_grad (t_requires_grad b) (clone_detach b)) <$>
        zip_with received_into buf ts,
      rest).
Proof.
  induction 1 as [|b t buf ts [Hs Hd] _ IH]; [done|].
  cbn [fmap list_fmap app recv_activations_loop].
  rewrite _recv_into_ok by done. cbn [bind].
  rewrite IH. done.
Qed.

Lemma zip_with_received_into_layout (buf ts : list tensor) :
  length buf = length ts ->
  Forall2 same_layout (zip_with received_into buf ts) buf.
Proof.
  revert ts; induction buf as [|b buf IH]; intros [|t ts] Hlen;
    try done; simpl in *.
  constructor; [by repeat split|]. apply IH. lia.
Qed.

(** C3. With dtype tables that are inverse to each other, the envelope that
    [send_activations] sends for a tuple ([num_tensors], then per tensor
    [ndims], [dtype_code], [shape], [requires_grad]) makes
    [create_receive_buffer] allocate a tuple of the same length, whose
    tensors have the size, dtype and requires_grad of the sender's, in the
    same order. So a first [send_activations] received by a first
    [recv_activations] leaves the receiver with such persistent buffers, and
    with inputs that have the layout and the values of what was sent. *)
Theorem metadata_round_trip
    (outs : list tensor) (rest : channel)
    (sbufs rbufs : pipe_buffers (list tensor)) (sid rid : nat) :
  (forall d : dtype, ID_TO_DTYPE (DTYPE_TO_ID d) = Some d) ->
  outputs sbufs !! sid = Some (Some outs) ->
  (rid < length (inputs rbufs))%nat ->
  exists meta bufs,
    _send_activation_meta (Some outs) = Ok meta /\
    meta = LongTensor [Z.of_nat (length outs)] :: flat_map tensor_meta outs /\
    create_receive_buffer (meta ++ rest) = Ok (bufs, rest) /\
    length bufs = length outs /\
    Forall2 same_layout bufs outs /\
    exists sender receiver rbufs' bufs' recvd,
      send_activations __init__ sbufs sid =
        Ok (sender, meta ++ (Payload <$> outs)) /\
      recv_activations __init__ rbufs rid
        (meta ++ (Payload <$> outs) ++ rest) = Ok (receiver, rbufs', rest) /\
      activation_recv_buf receiver = Some bufs' /\
      Forall2 same_layout bufs' outs /\
      inputs rbufs' !! rid = Some (Some recvd) /\
      Forall2 (fun r t => same_layout r t /\ t_data r = t_data t) recvd outs.
Proof.
  intros Htable Hsid Hrid.
  exists (LongTensor [Z.of_nat (length outs)] :: flat_map tensor_meta outs),
    (receive_buffer_for <$> outs).
  split; [done|]. split; [done|].
  split; [by apply create_receive_buffer_meta|].
  split; [by rewrite length_fmap|].
  split; [apply receive_buffer_for_layout|].
  eexists _, _, _, _, _. split; [|split].
  - unfold send_activations, getitem. rewrite Hsid. reflexivity.
  - unfold recv_activations. cbn [activation_recv_buf __init__].
    rewrite <- app_comm_cons, create_receive_buffer_meta by done.
    cbn [bind].
    rewrite recv_activations_loop_payloads.
    + cbn [bind]. unfold setitem. rewrite decide_True by done.
      reflexivity.
    + clear. induction outs; constructor; done.
  - cbn [activation_recv_buf inputs]. split; [done|].
    assert (Hz : forall ts : list tensor,
      zip_with received_into (receive_buffer_for <$> ts) ts =
      (fun t => received_into (receive_buffer_for t) t) <$> ts).
    { induction ts; simpl; [done|]. by f_equal. }
    rewrite Hz. split; [|split].
    + clear. induction outs; constructor; [by repeat split|done].
    + by apply list_lookup_insert_eq.
    + clear. induction outs; constructor; [by repeat split|done].
Qed.

Lemma send_activations_after_meta (self : PipelineCommunication)
    (bufs : pipe_buffers (list tensor)) (buffer_id : nat) (outs : list tensor) :
  sent_activation_meta self = true ->
  call_outputs (bufs, buffer_id) = Some outs ->
  send_activations self bufs buffer_id = Ok (self, Payload <$> outs).
Proof.
  unfold call_outputs, send_activations, getitem; simpl. intros -> Hc.
  destruct (outputs bufs !! buffer_id) as [[o|]|]; try done.
  by injection Hc as ->.
Qed.

Lemma send_activations_run_after_meta (self : PipelineCommunication)
    (calls : list (pipe_buffers (list tensor) * nat)) :
  sent_activation_meta self = true ->
  Forall (fun c => is_Some (call_outputs c)) calls ->
  exists sents,
    send_activations_run self calls = Ok (self, sents) /\
    Forall2 (fun c sent => exists outs,
               call_outputs c = Some outs /\ sent = Payload <$> outs)
            calls sents.
Proof.
  intros Hflag. induction 1 as [|[bufs i] calls [outs Ho] _ (sents & Hrun & IH)].
  - by exists [].
  - exists ((Payload <$> outs) :: sents). split.
    + simpl. rewrite (send_activations_after_meta _ _ _ outs) by done.
      cbn [bind]. rewrite Hrun. done.
    + constructor; eauto.
Qed.

Lemma Payload_not_LongTensor (ts : list tensor) :
  Forall (fun m => is_LongTensor m = false) (Payload <$> ts).
Proof. induction ts; constructor; done. Qed.

Lemma recv_activations_loop_inv (buf buf' recvd : list tensor)
    (ch ch' : channel) :
  recv_activations_loop buf ch = Ok (buf', recvd, ch') ->
  exists ts,
    ch = (Payload <$> ts) ++ ch' /\ Forall2 fits buf ts /\
    buf' = zip_with received_into buf ts.
Proof.
  revert buf' recvd ch; induction buf as [|b buf IH]; intros buf' recvd ch.
  - intros [= <- _ <-]. by exists [].
  - cbn [recv_activations_loop]. unfold _recv_into.
    destruct ch as [|[data|t] ch1]; try done.
    destruct (decide (t_size t = t_size b /\ t_dtype t = t_dtype b))
      as [Hfit|]; [|done].
    cbn [bind].
    destruct (recv_activations_loop buf ch1) as [[[buf1 recvd1] ch2]|] eqn:Hl;
      [|done].
    cbn [bind]. intros [= <- _ <-].
    destruct (IH _ _ _ Hl) as (ts & -> & Hfits & ->).
    exists (t :: ts). split; [done|]. split; [by constructor|done].
Qed.

(** C7. On a fresh transport ([sent_activation_meta] unset), in any run of
    [send_activations] calls whose slots hold a tuple, the first call sends
    the envelope of its tuple and then the tuple, the flag is set from then
    on, and every later call sends its tuple and nothing else, whatever its
    buffer id. On the other side, with dtype tables that are inverse to each
    other, the first [recv_activations] of a fresh transport reads that
    envelope, allocates from it one zero buffer per tensor of the sender's
    tuple, and receives the tuple into them; without the envelope first it
    fails. A [recv_activations] that returns leaves a persistent buffer; and
    with a persistent buffer in place a call reads payloads only, one per
    buffer, into the same buffers (layout kept, values overwritten), and a
    call that returns has read nothing else. *)
Theorem metadata_sent_once
    (first : pipe_buffers (list tensor) * nat)
    (later : list (pipe_buffers (list tensor) * nat))
    (outs0 : list tensor) :
  call_outputs first = Some outs0 ->
  Forall (fun c => is_Some (call_outputs c)) later ->
  (exists sender meta sents,
     sent_activation_meta __init__ = false /\
     _send_activation_meta (Some outs0) = Ok meta /\
     send_activations_run __init__ (first :: later) =
       Ok (sender, (meta ++ (Payload <$> outs0)) :: sents) /\
     sent_activation_meta sender = true /\
     Forall2 (fun c sent => exists outs,
                call_outputs c = Some outs /\ sent = Payload <$> outs)
             later sents /\
     Forall (Forall (fun m => is_LongTensor m = false)) sents) /\
  ((forall d : dtype, ID_TO_DTYPE (DTYPE_TO_ID d) = Some d) ->
   forall rbufs rid rest,
     (rid < length (inputs rbufs))%nat ->
     exists meta receiver rbufs',
       _send_activation_meta (Some outs0) = Ok meta /\
       activation_recv_buf __init__ = None /\
       create_receive_buffer (meta ++ (Payload <$> outs0) ++ rest) =
         Ok (receive_buffer_for <$> outs0, (Payload <$> outs0) ++ rest) /\
       recv_activations __init__ rbufs rid
         (meta ++ (Payload <$> outs0) ++ rest) = Ok (receiver, rbufs', rest) /\
       activation_recv_buf receiver =
         Some (zip_with received_into (receive_buffer_for <$> outs0) outs0) /\
       Forall2 same_layout
         (zip_with received_into (receive_buffer_for <$> outs0) outs0)
         outs0) /\
  (forall self bufs buffer_id t ch,
     activation_recv_buf self = None ->
     exists e, recv_activations self bufs buffer_id (Payload t :: ch) =
               Raise e) /\
  (forall self bufs buffer_id ch self' bufs' ch',
     recv_activations self bufs buffer_id ch = Ok (self', bufs', ch') ->
     is_Some (activation_recv_buf self')) /\
  (forall self bufs buffer_id buf ts rest,
     activation_recv_buf self = Some buf ->
     Forall2 fits buf ts ->
     (buffer_id < length (inputs bufs))%nat ->
     exists self' bufs',
       recv_activations self bufs buffer_id ((Payload <$> ts) ++ rest) =
         Ok (self', bufs', rest) /\
       activation_recv_buf self' = Some (zip_with received_into buf ts) /\
       Forall2 same_layout (zip_with received_into buf ts) buf) /\
  (forall self bufs buffer_id buf ch self' bufs' ch',
     activation_recv_buf self = Some buf ->
     recv_activations self bufs buffer_id ch = Ok (self', bufs', ch') ->
     exists ts,
       ch = (Payload <$> ts) ++ ch' /\ Forall2 fits buf ts /\
       activation_recv_buf self' = Some (zip_with received_into buf ts) /\
       Forall2 same_layout (zip_with received_into buf ts) buf).
Proof.
  intros Hfirst Hlater. split; [|split; [|split; [|split; [|split]]]].
  - destruct first as [bufs0 i0].
    set (sender := {| sent_activation_meta := true;
                      activation_recv_buf := None;
                      grad_recv_buf := None |}).
    destruct (send_activations_run_after_meta sender later eq_refl Hlater)
      as (sents & Hrun & Hsents).
    exists sender, (LongTensor [Z.of_nat (length outs0)]
                      :: flat_map tensor_meta outs0), sents.
    split; [done|]. split; [done|]. split; [|split; [done|split; [done|]]].
    + cbn [send_activations_run]. unfold send_activations, getitem.
      unfold call_outputs in Hfirst; simpl in Hfirst.
      destruct (outputs bufs0 !! i0) as [[o|]|]; try done.
      injection Hfirst as ->. cbn [bind __init__
        sent_activation_meta negb _send_activation_meta activation_recv_buf
        grad_recv_buf].
      fold sender. rewrite Hrun. done.
    + clear -Hsents. induction Hsents as [|c sent ? ? (outs & _ & ->)];
        constructor; [apply Payload_not_LongTensor|done].
  - intros Htable rbufs rid rest Hrid.
    assert (Hfits : Forall2 fits (receive_buffer_for <$> outs0) outs0).
    { clear. induction outs0; constructor; done. }
    exists (LongTensor [Z.of_nat (length outs0)]
              :: flat_map tensor_meta outs0).
    eexists _, _. split; [done|]. split; [done|].
    split; [|split; [|split]].
    + rewrite <- app_comm_cons. by apply create_receive_buffer_meta.
    + unfold recv_activations. cbn [activation_recv_buf __init__].
      rewrite <- app_comm_cons, create_receive_buffer_meta by done.
      cbn [bind]. rewrite recv_activations_loop_payloads by done.
      cbn [bind]. unfold setitem. rewrite decide_True by done. reflexivity.
    + done.
    + clear. induction outs0; constructor; [by repeat split|done].
  - intros self bufs buffer_id t ch Hnone. unfold recv_activations.
    rewrite Hnone. by eexists.
  - intros self bufs buffer_id ch self' bufs' ch'. unfold recv_activations.
    destruct (match activation_recv_buf self with
              | Some buf => _ | None => _ end) as [[buf ch1]|]; [|done].
    cbn [bind].
    destruct (recv_activations_loop buf ch1) as [[[buf' recvd] ch2]|]; [|done].
    cbn [bind].
    destruct (setitem _ _ _); [|done]. cbn [bind].
    intros [= <- _ _]. by eexists.
  - intros self bufs buffer_id buf ts rest Hbuf Hfits Hid.
    unfold recv_activations. rewrite Hbuf. cbn [bind].
    rewrite recv_activations_loop_payloads by done. cbn [bind].
    unfold setitem. rewrite decide_True by done. cbn [bind].
    eexists _, _. split; [done|]. split; [done|].
    apply zip_with_received_into_layout. by eapply Forall2_length.
  - intros self bufs buffer_id buf ch self' bufs' ch' Hbuf.
    unfold recv_activations. rewrite Hbuf. cbn [bind].
    destruct (recv_activations_loop buf ch) as [[[buf' recvd] ch2]|] eqn:Hl;
      [|done].
    cbn [bind].
    destruct (setitem _ _ _); [|done]. cbn [bind].
    intros [= <- _ <-].
    destruct (recv_activations_loop_inv _ _ _ _ _ Hl) as (ts & -> & Hfits & ->).
    exists ts. split; [done|]. split; [done|]. split; [done|].
    apply zip_with_received_into_layout. by eapply Forall2_length.
Qed.

(** *** Gradients *)

Lemma send_gradients_loop_ok (ins : list tensor) :
  Forall grad_consistent ins ->
  send_gradients_loop ins =
  Ok (Payload <$> omap t_grad (List.filter t_requires_grad ins)).
Proof.
  induction 1 as [|t ins Ht _ IH]; [done|].
  unfold grad_consistent in Ht. simpl.
  destruct (t_requires_grad t); simpl.
  - destruct Ht as [g ->]. rewrite IH. done.
  - by rewrite Ht.
Qed.

Lemma sent_gradients_are_grads (ins : list tensor) :
  Forall grad_consistent ins ->
  Forall2 (fun m t => exists g, t_grad t = Some g /\ m = Payload g)
    (Payload <$> omap t_grad (List.filter t_requires_grad ins))
    (List.filter t_requires_grad ins).
Proof.
  induction 1 as [|t ins Ht _ IH]; [constructor|].
  unfold grad_consistent in Ht. simpl.
  destruct (t_requires_grad t); [|done].
  destruct Ht as [g Hg]. simpl. rewrite Hg. constructor; eauto.
Qed.

Lemma create_gradients_buffer_filter (tensors : list tensor) :
  create_gradients_buffer tensors =
  torch_zeros_like <$> List.filter t_requires_grad tensors.
Proof.
  unfold create_gradients_buffer.
  enough (Hgen : forall acc,
    foldl (fun buffers tensor =>
             if t_requires_grad tensor
             then buffers ++ [torch_zeros_like tensor] else buffers)
          acc tensors =
    acc ++ (torch_zeros_like <$> List.filter t_requires_grad tensors))
    by apply (Hgen []).
  induction tensors as [|t tensors IH]; intros acc; simpl.
  - by rewrite app_nil_r.
  - rewrite IH. destruct (t_requires_grad t); [|done].
    by rewrite <- app_assoc.
Qed.

Lemma grad_positions_from_flags (i : nat) (ins outs : list tensor) :
  t_requires_grad <$> ins = t_requires_grad <$> outs ->
  grad_positions_from i ins = grad_positions_from i outs.
Proof.
  revert i outs; induction ins as [|a ins IH]; intros i [|b outs] Heq;
    try done; simpl in *.
  injection Heq as -> Heq. by rewrite (IH _ outs).
Qed.

Lemma grad_positions_from_lookup (i : nat) (tensors : list tensor) :
  Forall2 (fun p t => exists k, p = (i + k)%nat /\ tensors !! k = Some t)
    (grad_positions_from i tensors) (List.filter t_requires_grad tensors).
Proof.
  revert i; induction tensors as [|t tensors IH]; intros i; [constructor|].
  assert (Hshift : Forall2
    (fun p t0 => exists k, p = (i + k)%nat /\ (t :: tensors) !! k = Some t0)
    (grad_positions_from (Datatypes.S i) tensors)
    (List.filter t_requires_grad tensors)).
  { eapply Forall2_impl; [apply IH|]. intros p t0 (k & -> & Hk).
    exists (Datatypes.S k). split; [lia|done]. }
  simpl. destruct (t_requires_grad t); [|done].
  constructor; [|done]. exists O. split; [lia|done].
Qed.

(** C4. For inputs that meet the assertions of [send_gradients] (a [.grad]
    exactly on the entries that require one), [send_gradients] sends the
    [.grad] of the entries whose requires_grad is true, in tuple order, and
    frees the slot; [create_gradients_buffer] allocates one zero buffer per
    output entry whose requires_grad is true, in tuple order, and none for
    the others; and when the two tuples have the same requires_grad flags,
    what is sent and what is allocated come from the same tuple positions,
    one for one. *)
Theorem gradient_filter_agreement
    (bufs : pipe_buffers (list tensor)) (buffer_id : nat)
    (ins outs : list tensor) :
  inputs bufs !! buffer_id = Some (Some ins) ->
  Forall grad_consistent ins ->
  t_requires_grad <$> ins = t_requires_grad <$> outs ->
  exists bufs' sent,
    send_gradients bufs buffer_id = Ok (bufs', sent) /\
    inputs bufs' !! buffer_id = Some None /\
    Forall2 (fun m t => exists g, t_grad t = Some g /\ m = Payload g)
      sent (List.filter t_requires_grad ins) /\
    create_gradients_buffer outs =
      torch_zeros_like <$> List.filter t_requires_grad outs /\
    length sent = length (create_gradients_buffer outs) /\
    grad_positions ins = grad_positions outs /\
    Forall2 (fun p t => ins !! p = Some t)
      (grad_positions ins) (List.filter t_requires_grad ins) /\
    Forall2 (fun p t => outs !! p = Some t)
      (grad_positions outs) (List.filter t_requires_grad outs).
Proof.
  intros Hslot Hgrad Hflags.
  pose proof (lookup_lt_Some _ _ _ Hslot) as Hlt.
  eexists _, _. split; [|split; [|split; [|split; [|split; [|split; [|split]]]]]].
  - unfold send_gradients, getitem. rewrite Hslot. cbn [bind].
    rewrite send_gradients_loop_ok by done. cbn [bind].
    unfold setitem. rewrite decide_True by done. reflexivity.
  - cbn [inputs]. by apply list_lookup_insert_eq.
  - by apply sent_gradients_are_grads.
  - apply create_gradients_buffer_filter.
  - rewrite create_gradients_buffer_filter.
    pose proof (grad_positions_from_lookup 0 outs) as Ho.
    pose proof (grad_positions_from_lookup 0 ins) as Hi.
    pose proof (sent_gradients_are_grads ins Hgrad) as Hs.
    apply Forall2_length in Ho, Hi, Hs.
    rewrite Hs, length_fmap, <- Hi, <- Ho.
    by rewrite (grad_positions_from_flags 0 ins outs).
  - by apply grad_positions_from_flags.
  - eapply Forall2_impl; [apply grad_positions_from_lookup|].
    by intros p t (k & -> & Hk).
  - eapply Forall2_impl; [apply grad_positions_from_lookup|].
    by intros p t (k & -> & Hk).
Qed.

End TransportFacts.

(** ** The stage runtime *)

Section ExecutionFacts.

Import Execution.

Context `{Torch}.

(** [_prepare_input] keeps the structure of a value and prepares each of
    its tensors. *)
Lemma tensors_in_prepare_input (d : data) :
  tensors_in (_prepare_input d) = _prepare_tensor <$> tensors_in d.
Proof.
  induction d as [items IH|elems IH|elems IH|t|repr] using data_nested_ind;
    simpl; try done.
  - induction IH as [|kv items Hkv _ IH]; simpl; [done|].
    rewrite fmap_app, Hkv. f_equal. exact IH.
  - induction IH as [|x elems Hx _ IH]; simpl; [done|].
    rewrite fmap_app, Hx. f_equal. exact IH.
  - induction IH as [|x elems Hx _ IH]; simpl; [done|].
    rewrite fmap_app, Hx. f_equal. exact IH.
Qed.

Lemma load_microbatch_first_stage (self : PipelineExecution) (buffer_id : nat)
    (batch : list (string * data)) (rest : list (list (string * data))) :
  model_layers self !! 0%nat = Some 0%Z ->
  data_iterator self = batch :: rest ->
  (buffer_id < length (inputs (buffers self)))%nat ->
  load_microbatch self buffer_id =
  Ok {| model_layers := model_layers self;
        total_num_layers := total_num_layers self;
        buffers :=
          {| inputs := <[buffer_id := Some (_prepare_inputs batch)]>
                         (inputs (buffers self));
             labels := labels (buffers self);
             outputs := outputs (buffers self) |};
        data_iterator := rest |}.
Proof.
  intros Hfirst Hit Hid.
  unfold load_microbatch, is_first_stage, getitem. rewrite Hfirst. simpl.
  rewrite Hit. unfold setitem. rewrite decide_True by done. done.
Qed.

Lemma load_microbatch_last_stage (self : PipelineExecution) (buffer_id : nat)
    (first_layer last_layer : Z) :
  model_layers self !! 0%nat = Some first_layer ->
  last (model_layers self) = Some last_layer ->
  first_layer <> 0%Z -> last_layer = (total_num_layers self - 1)%Z ->
  load_microbatch self buffer_id = Ok self.
Proof.
  intros Hfirst Hlast Hne ->.
  unfold load_microbatch, is_first_stage, is_last_stage, getitem.
  rewrite Hfirst, Hlast. simpl.
  destruct (Z.eqb_spec first_layer 0); [done|]. simpl.
  by rewrite Z.eqb_refl.
Qed.

(** C9, as the code has it. [load_microbatch] fails its assertion on a
    stage that is neither the first nor the last. On the first stage it
    takes the next batch of the dataloader iterator, prepares its values
    (each tensor cloned, detached, moved to the device, and requiring a
    gradient exactly when its dtype is floating point) and stores the tuple
    in the inputs slot of [buffer_id]. On a last stage that is not the
    first it does nothing. *)
Theorem load_microbatch_by_stage (self : PipelineExecution) (buffer_id : nat)
    (first_layer last_layer : Z) :
  model_layers self !! 0%nat = Some first_layer ->
  last (model_layers self) = Some last_layer ->
  (first_layer <> 0%Z -> last_layer <> (total_num_layers self - 1)%Z ->
   load_microbatch self buffer_id =
   Raise (AssertionError
     "load_microatch can only be called at either the first stage or the last stage.")) /\
  (first_layer = 0%Z ->
   forall batch rest,
     data_iterator self = batch :: rest ->
     (buffer_id < length (inputs (buffers self)))%nat ->
     load_microbatch self buffer_id =
     Ok {| model_layers := model_layers self;
           total_num_layers := total_num_layers self;
           buffers :=
             {| inputs := <[buffer_id := Some (_prepare_inputs batch)]>
                            (inputs (buffers self));
                labels := labels (buffers self);
                outputs := outputs (buffers self) |};
           data_iterator := rest |}) /\
  (forall batch,
     Forall2 (fun kv d => tensors_in d = _prepare_tensor <$> tensors_in kv.2)
       batch (_prepare_inputs batch)) /\
  (forall t,
     t_device (_prepare_tensor t) = cuda /\
     t_requires_grad (_prepare_tensor t) = is_floating_point (t_dtype t) /\
     t_size (_prepare_tensor t) = t_size t /\
     t_dtype (_prepare_tensor t) = t_dtype t /\
     t_data (_prepare_tensor t) = t_data t) /\
  (first_layer <> 0%Z -> last_layer = (total_num_layers self - 1)%Z ->
   load_microbatch self buffer_id = Ok self).
Proof.
  intros Hfirst Hlast. split; [|split; [|split; [|split]]].
  - intros Hnf Hnl.
    unfold load_microbatch, is_first_stage, is_last_stage, getitem.
    rewrite Hfirst, Hlast. simpl.
    destruct (Z.eqb_spec first_layer 0); [done|]. simpl.
    destruct (Z.eqb_spec last_layer (total_num_layers self - 1)); done.
  - intros -> batch rest Hit Hid. by apply load_microbatch_first_stage.
  - intros batch. unfold _prepare_inputs.
    induction batch as [|kv batch IH]; constructor; [|done].
    apply tensors_in_prepare_input.
  - intros t. by repeat split.
  - intros Hnf Hl. by eapply load_microbatch_last_stage.
Qed.

End ExecutionFacts.

(** On the last stage of a pipeline of two stages, [load_microbatch] takes
    no batch and stores nothing: the iterator, the inputs and the labels
    are as before. *)
Lemma load_microbatch_last_stage_loads_nothing :
  Execution.is_first_stage SpecTable.last_stage = Ok false /\
  Execution.is_last_stage SpecTable.last_stage = Ok true /\
  Execution.load_microbatch SpecTable.last_stage 0 = Ok SpecTable.last_stage /\
  labels (Execution.buffers SpecTable.last_stage) !! 0%nat = Some None /\
  inputs (Execution.buffers SpecTable.last_stage) !! 0%nat = Some None /\
  Execution.data_iterator SpecTable.last_stage = [SpecTable.batch].
Proof. repeat split. Qed.

(** The first stage loads the batch into slot 0. *)
Lemma load_microbatch_by_stage_witness :
  Execution.load_microbatch SpecTable.first_stage 0 =
  Ok {| Execution.model_layers := [0%Z];
        Execution.total_num_layers := 2;
        Execution.buffers :=
          {| inputs := [Some (Execution._prepare_inputs SpecTable.batch); None];
             labels := [None; None]; outputs := [None; None] |};
        Execution.data_iterator := [] |}.
Proof.
  refine (proj1 (proj2 (load_microbatch_by_stage SpecTable.first_stage 0
                          0%Z 0%Z eq_refl eq_refl))
            eq_refl SpecTable.batch [] eq_refl _).
  simpl. lia.
Defined.

(** ** The engine *)

Section EngineFacts.

Import Engine.

Lemma notification_receive_func_flag (ev : watcher_event)
    (self : ExecutionEngine) :
  need_reconfiguration self = true ->
  need_reconfiguration (notification_receive_func ev self) = true.
Proof. destruct ev, self as [flag [[]|]]; simpl; auto. Qed.

Lemma watcher_steps_flag (evs : list watcher_event) (self : ExecutionEngine) :
  need_reconfiguration self = true ->
  need_reconfiguration (watcher_steps evs self) = true.
Proof.
  unfold watcher_steps. revert self.
  induction evs as [|ev evs IH]; intros self Hflag; [done|].
  simpl. by apply IH, notification_receive_func_flag.
Qed.




Lemma notification_receive_func_thread (ev : watcher_event)
    (self : ExecutionEngine) :
  is_Some (notification_receiver_thread self) ->
  is_Some (notification_receiver_thread (notification_receive_func ev self)).
Proof. destruct ev, self as [flag [[]|]]; simpl; auto. Qed.

Lemma watcher_steps_thread (evs : list watcher_event)
    (self : ExecutionEngine) :
  is_Some (notification_receiver_thread self) ->
  is_Some (notification_receiver_thread (watcher_steps evs self)).
Proof.
  unfold watcher_steps. revert self.
  induction evs as [|ev evs IH]; intros self Hw; [done|].
  simpl. by apply IH, notification_receive_func_thread.
Qed.

Lemma notification_receive_func_flag_has_watcher (ev : watcher_event)
    (self : ExecutionEngine) :
  flag_has_watcher self -> flag_has_watcher (notification_receive_func ev self).
Proof.
  unfold flag_has_watcher, notification_receive_func.
  destruct ev, self as [flag [[]|]]; simpl; auto.
Qed.

Lemma watcher_steps_flag_has_watcher (evs : list watcher_event)
    (self : ExecutionEngine) :
  flag_has_watcher self -> flag_has_watcher (watcher_steps evs self).
Proof.
  unfold watcher_steps. revert self.
  induction evs as [|ev evs IH]; intros self Hinv; [done|].
  simpl. by apply IH, notification_receive_func_flag_has_watcher.
Qed.

(** When the wait ends, the watcher has terminated, and the engine is as
    the watcher left it. *)
Lemma wait_for_watcher_Ok (polls : list (list watcher_event))
    (self self' : ExecutionEngine) :
  wait_for_watcher polls self = Some (Ok self') ->
  notification_receiver_thread self' = Some Terminated /\
  (need_reconfiguration self = true -> need_reconfiguration self' = true).
Proof.
  revert self; induction polls as [|evs polls IH]; intros self; simpl;
    destruct (notification_receiver_thread self) as [w|] eqn:Hw; try done;
    destruct (is_alive w) eqn:Ha; try done.
  - intros [= <-]. by destruct w.
  - intros Hwait. destruct (IH _ Hwait) as [Ht Hf]. split; [done|].
    intros Hflag. by apply Hf, watcher_steps_flag.
  - intros [= <-]. by destruct w.
Qed.

Lemma wait_for_watcher_raises (polls : list (list watcher_event))
    (self : ExecutionEngine) (e : exception) :
  wait_for_watcher polls self = Some (Raise e) ->
  notification_receiver_thread self = None.
Proof.
  revert self; induction polls as [|evs polls IH]; intros self; simpl;
    destruct (notification_receiver_thread self) as [w|] eqn:Hw; try done;
    destruct (is_alive w) eqn:Ha; try done.
  intros Hwait. apply IH in Hwait.
  pose proof (watcher_steps_thread evs self) as Hs.
  unfold sleep in Hwait. rewrite Hw, Hwait in Hs.
  by destruct Hs.
Qed.




Lemma execute_flag_has_watcher {A} (self self' : ExecutionEngine)
    (it it' : iterator) (before : list watcher_event)
    (polls : list (list watcher_event)) (run : result throwable A)
    (during : list watcher_event) (r : result throwable (option A)) :
  flag_has_watcher self ->
  execute self it before polls run during = Some (self', it', r) ->
  flag_has_watcher self'.
Proof.
  intros Hinv. unfold execute.
  destruct (need_reconfiguration self) eqn:Hflag.
  - destruct (wait_for_watcher polls _) as [[s1|e]|] eqn:Hwait; try done.
    + intros [= <- _ _] _. apply wait_for_watcher_Ok in Hwait as [-> _].
      by eexists.
    + intros [= <- _ _]. by apply watcher_steps_flag_has_watcher.
  - destruct (invalidated it); [by intros [= <- _ _]|].
    match goal with
    | |- context [watcher_steps during ?s0] =>
        assert (Hs : flag_has_watcher (watcher_steps during s0))
    end.
    { apply watcher_steps_flag_has_watcher. intros _.
      destruct (notification_receiver_thread (watcher_steps before self))
        as [w|] eqn:Hw; [destruct (is_alive w)|]; simpl; rewrite ?Hw;
        by eexists. }
    destruct run as [out|[e|name msg]]; [by intros [= <- _ _]| |].
    + destruct (negb (is_teardown e)); [by intros [= <- _ _]|].
      destruct (setattr_invalidated it); by intros [= <- _ _].
    + by intros [= <- _ _].
Qed.

Lemma reachable_flag_has_watcher (self : ExecutionEngine) :
  reachable self -> flag_has_watcher self.
Proof.
  induction 1 as [|self ev _ IH
                  |self it before polls run during self' it' r _ IH Hex
                  |self res _ IH].
  - by intros ?.
  - by apply notification_receive_func_flag_has_watcher.
  - by eapply execute_flag_has_watcher.
  - destruct res; [by intros ?|done].
Qed.


(** C5, as the code has it. When the pipeline run raises (the flag is down
    and the iterator valid, so that the run is reached) and the iterator
    takes the [invalidated] attribute, [execute] recovers, that is returns
    None instead of raising, exactly when what was raised derives from
    [Exception] and its [str] starts with "Default process group" or with
    "Connection closed"; then it has set the [invalidated] flag of the
    iterator. Anything else comes out of [execute] as it was raised, and the
    iterator is as before. *)
Theorem execute_recovers_teardown_only {A} (self : ExecutionEngine)
    (it : iterator) (before : list watcher_event)
    (polls : list (list watcher_event)) (x : throwable)
    (during : list watcher_event) :
  need_reconfiguration self = false ->
  invalidated it = false ->
  takes_attributes it = true ->
  exists self' it' (r : result throwable (option A)),
    execute self it before polls (Raise x) during = Some (self', it', r) /\
    (r = Ok None <->
     exists e, x = Exc e /\
       (String.prefix "Default process group" (exn_str e) = true \/
        String.prefix "Connection closed" (exn_str e) = true)) /\
    (r = Ok None -> invalidated it' = true) /\
    (r <> Ok None -> r = Raise x /\ it' = it).
Proof.
  intros Hflag Hit Hattr. unfold execute. rewrite Hflag, Hit.
  destruct x as [e|name msg].
  - unfold is_teardown, setattr_invalidated. rewrite Hattr.
    destruct (String.prefix "Default process group" (exn_str e)) eqn:Hp1,
      (String.prefix "Connection closed" (exn_str e)) eqn:Hp2; simpl;
      eexists _, _, _; (split; [reflexivity|]);
      (split; [split; [intros Hr; first [done | exists e; auto]
                      |intros (e' & [= <-] & [Hp|Hp]); congruence]|]);
      (split; [done|]); intros Hr; first [done | by split].
  - eexists _, _, _. split; [reflexivity|].
    split; [split; [done|by intros (e & [=] & _)]|]. by split.
Qed.

(** C5, as the specification has it, fails: a SystemExit whose message
    starts with "Connection closed" is not recovered, because the handler
    catches [Exception] only; and a teardown error met with the iterator of
    a list, which takes no attribute, comes out as an AttributeError. *)
Lemma execute_does_not_recover_every_teardown :
  String.prefix "Connection closed" "Connection closed by peer" = true /\
  execute (outputs:=unit) running dataloader_iter [] []
    (Raise (BaseExc "SystemExit" "Connection closed by peer")) [] =
  Some (running, dataloader_iter,
        Raise (BaseExc "SystemExit" "Connection closed by peer")) /\
  is_teardown connection_closed = true /\
  execute (outputs:=unit) running list_iterator [] []
    (Raise (Exc connection_closed)) [] =
  Some (running, list_iterator,
        Raise (Exc (AttributeError
          "'list_iterator' object has no attribute 'invalidated'"))).
Proof. repeat split. Qed.



End EngineFacts.

(** ** The pipeline *)

Section PipelineFacts.

Import Pipeline.

(** C10. Line 496 stores nothing, so [my_rank] is not an attribute of the
    instance when line 497 reads it: whenever the two assertions before it
    pass, the read raises AttributeError; and whatever the arguments and
    whatever the rest of [__init__] does, [__init__] does not return. *)
Theorem init_never_completes (args : init_args)
    (rest : gmap string pyvalue -> result exception (gmap string pyvalue)) :
  (forall self, __init__ args rest <> Ok self) /\
  (dist_is_initialized args = true ->
   length (ranks args) = (num_stages args * num_gpus_per_node args)%nat ->
   getattr (<["ranks" := PyIntList (ranks args)]> ∅) "my_rank" =
     Raise (AttributeError
              "'OobleckPipeline' object has no attribute 'my_rank'") /\
   __init__ args rest =
     Raise (AttributeError
              "'OobleckPipeline' object has no attribute 'my_rank'")).
Proof.
  assert (Hread : getattr (<["ranks" := PyIntList (ranks args)]> ∅) "my_rank" =
     Raise (AttributeError
              "'OobleckPipeline' object has no attribute 'my_rank'")).
  { unfold getattr. by rewrite lookup_insert_ne, lookup_empty. }
  unfold __init__. split.
  - intros self. destruct (dist_is_initialized args); simpl; [|done].
    case_bool_decide; simpl; [|done]. by rewrite Hread.
  - intros -> Hlen. simpl. rewrite bool_decide_true by done. simpl.
    by rewrite Hread.
Qed.

End PipelineFacts.

(** ** The properties on the examples *)

Section Examples.

Import Transport SpecTable.

Lemma spec_table_inverse (d : torch_dtype) :
  id_to_dtype (dtype_to_id d) = Some d.
Proof. destruct d; reflexivity. Defined.

(** The envelope of the two activations, received into slot 1 of the next
    stage. *)
Lemma metadata_round_trip_witness :
  exists bufs,
    Transport.create_receive_buffer
      (LongTensor [2%Z] :: flat_map Transport.tensor_meta activations) =
      Ok (bufs, []) /\
    length bufs = 2%nat /\
    Forall2 same_layout bufs activations.
Proof.
  destruct (metadata_round_trip activations [] sender_buffers receiver_buffers
              0 1 spec_table_inverse eq_refl)
    as (meta & bufs & _ & Hmeta & Hrecv & Hlen & Hlayout & _).
  { simpl. lia. }
  exists bufs. subst meta. rewrite app_nil_r in Hrecv.
  split; [exact Hrecv|]. split; [exact Hlen|exact Hlayout].
Defined.

(** Scenario 5: five microbatches sent from slot 0; the next stage
    receives the first of them into slot 1 and allocates its two buffers
    from the envelope. *)
Lemma metadata_sent_once_witness :
  (exists sender sents,
     Transport.send_activations_run Transport.__init__
       (replicate 5 (sender_buffers, 0%nat)) =
       Ok (sender,
           (LongTensor [2%Z] :: flat_map Transport.tensor_meta activations
              ++ (Payload <$> activations)) :: sents) /\
     Forall (Forall (fun m => Transport.is_LongTensor m = false)) sents) /\
  (exists receiver rbufs',
     Transport.recv_activations Transport.__init__ receiver_buffers 1
       (LongTensor [2%Z] :: flat_map Transport.tensor_meta activations
          ++ (Payload <$> activations) ++ []) =
       Ok (receiver, rbufs', []) /\
     Transport.activation_recv_buf receiver = Some activations).
Proof.
  destruct (metadata_sent_once (sender_buffers, 0%nat)
              (replicate 4 (sender_buffers, 0%nat)) activations eq_refl)
    as ((sender & meta & sents & _ & Hmeta & Hrun & _ & _ & Hlater)
        & Hrecv & _).
  { repeat constructor; by eexists. }
  split.
  - injection Hmeta as <-. exists sender, sents.
    split; [exact Hrun|exact Hlater].
  - destruct (Hrecv spec_table_inverse receiver_buffers 1%nat [])
      as (meta' & receiver & rbufs' & Hmeta' & _ & _ & Hcall & Hbuf & _).
    { simpl. lia. }
    injection Hmeta' as <-. exists receiver, rbufs'.
    split; [exact Hcall|exact Hbuf].
Defined.

(** Scenario 6: the mask requires no gradient; one gradient is sent and one
    buffer allocated, both for position 0. *)
Lemma gradient_filter_agreement_witness :
  exists bufs',
    Transport.send_gradients receiver_buffers 0 =
      Ok (bufs', [Payload hidden_states_grad]) /\
    Transport.create_gradients_buffer activations =
      [torch_zeros_like hidden_states] /\
    Transport.grad_positions received_activations = [0%nat] /\
    Transport.grad_positions activations = [0%nat].
Proof.
  destruct (gradient_filter_agreement receiver_buffers 0
              received_activations activations eq_refl)
    as (bufs' & sent & Hsend & _ & Hsent & Hbuf & _ & Hpos & _).
  { repeat constructor. by eexists. }
  { reflexivity. }
  exists bufs'. split.
  - rewrite Hsend. f_equal. f_equal.
    inversion Hsent as [|m t ms ts (g & Hg & ->) Hrest]; subst.
    inversion Hrest; subst. injection Hg as <-. reflexivity.
  - split; [exact Hbuf|]. split; [reflexivity|]. rewrite <- Hpos. reflexivity.
Defined.

End Examples.

Section EngineExamples.

Import Engine.

Lemma reachable_running : reachable running.
Proof.
  exact (reachable_execute __init__ dataloader_iter [] [] (Ok tt) []
           running _ _ reachable_init eq_refl).
Defined.

Lemma execute_recovers_teardown_only_witness :
  exists self' it',
    execute (outputs:=unit) running dataloader_iter [] []
      (Raise (Exc connection_closed)) [Notified] =
    Some (self', it', Ok None) /\
    invalidated it' = true.
Proof.
  destruct (execute_recovers_teardown_only (A:=unit) running dataloader_iter
              [] [] (Exc connection_closed) [Notified]
              eq_refl eq_refl eq_refl)
    as (self' & it' & r & Hex & Hiff & Hinv & _).
  assert (Hr : r = Ok None).
  { apply Hiff. exists connection_closed. split; [reflexivity|].
    right; reflexivity. }
  exists self', it'. split; [by rewrite Hex, Hr|exact (Hinv Hr)].
Defined.


End EngineExamples.

Section PipelineExamples.

Import Pipeline.

Lemma init_never_completes_witness :
  __init__ two_stage_args Ok =
  Raise (AttributeError "'OobleckPipeline' object has no attribute 'my_rank'").
Proof.
  exact (proj2 (proj2 (init_never_completes two_stage_args Ok)
                  eq_refl eq_refl)).
Defined.

End PipelineExamples.

(** * Further properties *)

Set Warnings "-clear-no-such-hyp".

(** ** The schedule, step by step *)

Section ScheduleStepFacts.

Import Schedule ScheduleSteps.
Local Open Scope Z_scope.

Variable self : OobleckPipelineSchedule.

Abbreviation M := (micro_batches self).
Abbreviation NS := (stages self).
Abbreviation sid := (stage_id self).

Lemma steps_from_seqZ (n : nat) (prev a : Z) :
  steps_from self prev (seqZ a (Z.of_nat n)) =
  (fun t => step_cmds self
              (if t =? a then prev
               else (_step_to_micro_batch self (t - 1)).1) t)
    <$> seqZ a (Z.of_nat n).
Proof.
  revert prev a; induction n as [|n IH]; intros prev a; [done|].
  rewrite seqZ_cons by lia.
  replace (Z.pred (Z.of_nat (Datatypes.S n))) with (Z.of_nat n) by lia.
  cbn [steps_from fmap list_fmap]. rewrite Z.eqb_refl. f_equal.
  rewrite IH. apply list_fmap_ext. intros k t Ht.
  apply lookup_seqZ in Ht as [-> Hk].
  destruct (Z.eqb_spec (Z.succ a + Z.of_nat k) (Z.succ a)) as [He|He];
    destruct (Z.eqb_spec (Z.succ a + Z.of_nat k) a); try lia; [|done].
  do 3 f_equal. lia.
Qed.

(** [steps] yields, step after step, the group of that step. *)
Lemma steps_cmds_at :
  steps self = cmds_at self <$> seqZ 0 (2 * (M + NS - 1)).
Proof.
  unfold steps. destruct (Z.le_gt_cases 0 (2 * (M + NS - 1))) as [Hn|Hn].
  - replace (2 * (M + NS - 1)) with (Z.of_nat (Z.to_nat (2 * (M + NS - 1))))
      by lia.
    rewrite steps_from_seqZ. done.
  - by rewrite seqZ_nil by lia.
Qed.

Lemma lookup_steps_cmds_at (k : nat) (cmds : list instruction) :
  steps self !! k = Some cmds ->
  cmds = cmds_at self (Z.of_nat k) /\ Z.of_nat k < 2 * (M + NS - 1).
Proof.
  rewrite steps_cmds_at, list_lookup_fmap.
  destruct (seqZ 0 (2 * (M + NS - 1)) !! k) as [t|] eqn:Ht; [|done].
  apply lookup_seqZ in Ht as [-> Hk]. simpl. intros [= <-].
  split; [f_equal; lia|lia].
Qed.

Lemma elem_of_steps_step_cmds (cmds : list instruction) :
  cmds ∈ steps self -> exists prev t, cmds = step_cmds self prev t.
Proof.
  rewrite steps_cmds_at. intros (t & -> & _)%list_elem_of_fmap.
  by eexists _, _.
Qed.

(** X1. Every buffer id named by an instruction of the stream is a valid
    index into the [num_pipe_buffers] slots of the stage, whatever M, S
    and s are. *)
Theorem buffer_ids_within_pipe_buffers (cmd : instruction) (b : Z) :
  cmd ∈ stream self -> buffer_id_of cmd = Some b ->
  0 <= b < num_pipe_buffers self.
Proof.
  intros Hcmd Hb.
  destruct (buffer_id_of_stream self cmd b Hcmd Hb) as (i & Hi & ->).
  unfold _buffer_idx. apply Z.mod_pos_bound. unfold num_pipe_buffers. lia.
Qed.

(** X2. Every group that [steps] yields is, in this order: at most two P2P
    instructions, at most one LoadMicroBatch, at most one compute
    instruction. A LoadMicroBatch comes with the ForwardPass of the same
    buffer, and no group holds an OptimizerStep. *)
Theorem step_group_shape (cmds : list instruction) :
  cmds ∈ steps self ->
  cmds = List.filter is_p2p cmds ++ List.filter is_LoadMicroBatch cmds
           ++ List.filter is_compute cmds /\
  (length (List.filter is_p2p cmds) <= 2)%nat /\
  (length (List.filter is_LoadMicroBatch cmds) <= 1)%nat /\
  (length (List.filter is_compute cmds) <= 1)%nat /\
  (forall b, LoadMicroBatch b ∈ cmds -> ForwardPass b ∈ cmds) /\
  OptimizerStep ∉ cmds.
Proof.
  intros (prev & t & ->)%elem_of_steps_step_cmds. unfold step_cmds.
  destruct (_step_to_micro_batch self t) as [mb fwd].
  destruct (sid =? 0), (sid =? NS - 1),
    fwd, (_valid_micro_batch self prev), (_valid_micro_batch self mb),
    (_valid_stage self (prev_stage self)),
    (_valid_stage self (next_stage self)); simpl;
    (split; [reflexivity|]); (split; [lia|]); (split; [lia|]);
    (split; [lia|]); (split; [intros b|]);
    rewrite ?elem_of_cons, ?elem_of_nil; naive_solver.
Qed.

Lemma filter_LoadMicroBatch_step_cmds (prev t : Z) :
  List.filter is_LoadMicroBatch (step_cmds self prev t) =
  let '(mb, fwd) := _step_to_micro_batch self t in
  if ((sid =? 0) || (sid =? NS - 1)) && (fwd && _valid_micro_batch self mb)
  then [LoadMicroBatch (_buffer_idx self mb)] else [].
Proof.
  unfold step_cmds.
  destruct (_step_to_micro_batch self t) as [mb fwd].
  destruct (sid =? 0), (sid =? NS - 1),
    fwd, (_valid_micro_batch self prev), (_valid_micro_batch self mb),
    (_valid_stage self (prev_stage self)),
    (_valid_stage self (next_stage self)); reflexivity.
Qed.

(** One element per forward step of a valid microbatch gives one element
    per microbatch, in order. *)
Lemma flat_map_forward_steps (g : Z -> instruction) :
  1 <= M -> 1 <= NS -> 0 <= sid < NS ->
  flat_map (fun t => let '(mb, fwd) := _step_to_micro_batch self t in
                     if fwd && _valid_micro_batch self mb then [g mb] else [])
           (seqZ 0 (2 * (M + NS - 1))) =
  g <$> seqZ 0 M.
Proof.
  intros HM HS Hs.
  replace (2 * (M + NS - 1)) with (Z.of_nat (Z.to_nat (2 * (M + NS - 1))))
    by lia.
  rewrite (flat_map_stride _ g sid M); [ | lia | ].
  - do 2 f_equal. div_lia.
  - intros t Ht.
    destruct (step_to_micro_batch_cases self t) as [[Hp ->]|[Hp ->]]; simpl;
      unfold _valid_micro_batch; case_bool_decide as Hd;
      try destruct Hd as (? & ? & ?);
      repeat
        match goal with
        | |- context [Z.leb ?x ?y] => destruct (Z.leb_spec x y)
        | |- context [Z.ltb ?x ?y] => destruct (Z.ltb_spec x y)
        end; simpl; try done; exfalso; div_lia.
Qed.

Lemma flat_map_nil_everywhere {A B} (f : A -> list B) (l : list A) :
  (forall x, f x = []) -> flat_map f l = [].
Proof. intros Hf. induction l as [|x l IH]; simpl; [done|]. by rewrite Hf. Qed.

(** X3. The first and the last stage load one microbatch per forward pass,
    in microbatch order: M LoadMicroBatch over the batch. A stage in
    between loads none. *)
Theorem load_microbatch_at_the_ends :
  1 <= M -> 1 <= NS -> 0 <= sid < NS ->
  List.filter is_LoadMicroBatch (stream self) =
  if (sid =? 0) || (sid =? NS - 1)
  then (fun i => LoadMicroBatch (_buffer_idx self i)) <$> seqZ 0 M
  else [].
Proof.
  intros HM HS Hs. unfold stream, steps.
  rewrite (filter_concat_steps_from self is_LoadMicroBatch _ _ _
             (fun p t => filter_LoadMicroBatch_step_cmds p t)).
  destruct ((sid =? 0) || (sid =? NS - 1)); simpl.
  - by apply flat_map_forward_steps.
  - apply flat_map_nil_everywhere. intros t.
    by destruct (_step_to_micro_batch self t).
Qed.

(** *** The P2P instructions of a step *)

Lemma filter_SendActivation_step_cmds (prev t : Z) :
  List.filter is_SendActivation (step_cmds self prev t) =
  if negb (_step_to_micro_batch self t).2 && _valid_micro_batch self prev
     && _valid_stage self (next_stage self)
  then [SendActivation (_buffer_idx self prev)] else [].
Proof.
  unfold step_cmds.
  destruct (_step_to_micro_batch self t) as [mb fwd]. cbn [fst snd].
  destruct (sid =? 0), (sid =? NS - 1),
    fwd, (_valid_micro_batch self prev), (_valid_micro_batch self mb),
    (_valid_stage self (prev_stage self)),
    (_valid_stage self (next_stage self)); reflexivity.
Qed.

Lemma filter_RecvActivation_step_cmds (prev t : Z) :
  List.filter is_RecvActivation (step_cmds self prev t) =
  if (_step_to_micro_batch self t).2
     && _valid_micro_batch self (_step_to_micro_batch self t).1
     && _valid_stage self (prev_stage self)
  then [RecvActivation (_buffer_idx self (_step_to_micro_batch self t).1)]
  else [].
Proof.
  unfold step_cmds.
  destruct (_step_to_micro_batch self t) as [mb fwd]. cbn [fst snd].
  destruct (sid =? 0), (sid =? NS - 1),
    fwd, (_valid_micro_batch self prev), (_valid_micro_batch self mb),
    (_valid_stage self (prev_stage self)),
    (_valid_stage self (next_stage self)); reflexivity.
Qed.

Lemma filter_RecvGrad_step_cmds (prev t : Z) :
  List.filter is_RecvGrad (step_cmds self prev t) =
  if negb (_step_to_micro_batch self t).2
     && _valid_micro_batch self (_step_to_micro_batch self t).1
     && _valid_stage self (next_stage self)
  then [RecvGrad (_buffer_idx self (_step_to_micro_batch self t).1)]
  else [].
Proof.
  unfold step_cmds.
  destruct (_step_to_micro_batch self t) as [mb fwd]. cbn [fst snd].
  destruct (sid =? 0), (sid =? NS - 1),
    fwd, (_valid_micro_batch self prev), (_valid_micro_batch self mb),
    (_valid_stage self (prev_stage self)),
    (_valid_stage self (next_stage self)); reflexivity.
Qed.

Lemma filter_SendGrad_step_cmds (prev t : Z) :
  List.filter is_SendGrad (step_cmds self prev t) =
  if (_step_to_micro_batch self t).2 && _valid_micro_batch self prev
     && _valid_stage self (prev_stage self)
  then [SendGrad (_buffer_idx self prev)] else [].
Proof.
  unfold step_cmds.
  destruct (_step_to_micro_batch self t) as [mb fwd]. cbn [fst snd].
  destruct (sid =? 0), (sid =? NS - 1),
    fwd, (_valid_micro_batch self prev), (_valid_micro_batch self mb),
    (_valid_stage self (prev_stage self)),
    (_valid_stage self (next_stage self)); reflexivity.
Qed.

(** The steps at which a stage exchanges microbatch [i] with its
    neighbours: it receives the activation at [s + 2i] and sends its own
    at [s + 2i + 1]; it receives the gradient at [2S - s - 1 + 2i] and
    sends its own at [2S - s + 2i]. *)
Ltac stride_cases t :=
  unfold prev_micro_batch_id_at;
  destruct (Z.eqb_spec t 0);
  destruct (step_to_micro_batch_cases self t) as [[? ->]|[? ->]];
  try destruct (step_to_micro_batch_cases self (t - 1)) as [[? ->]|[? ->]];
  simpl; unfold _valid_micro_batch;
  (let Hd := fresh "Hd" in
   case_bool_decide as Hd; try destruct Hd as (? & ? & ?));
  repeat
    match goal with
    | |- context [Z.leb ?x ?y] => destruct (Z.leb_spec x y)
    | |- context [Z.ltb ?x ?y] => destruct (Z.ltb_spec x y)
    end; simpl;
  try destruct (_valid_stage self _); simpl;
  try reflexivity; try (exfalso; div_lia);
  try (do 3 f_equal; div_lia).

Lemma filter_SendActivation_cmds_at (t : Z) :
  0 <= t -> 0 <= sid ->
  List.filter is_SendActivation (cmds_at self t) =
  if bool_decide (sid + 1 <= t /\ (t - (sid + 1)) mod 2 = 0 /\
                  (t - (sid + 1)) / 2 < M)
     && _valid_stage self (next_stage self)
  then [SendActivation (_buffer_idx self ((t - (sid + 1)) / 2))] else [].
Proof.
  intros Ht Hs. unfold cmds_at. rewrite filter_SendActivation_step_cmds.
  stride_cases t.
Qed.

Lemma filter_RecvActivation_cmds_at (t : Z) :
  0 <= t -> 0 <= sid ->
  List.filter is_RecvActivation (cmds_at self t) =
  if bool_decide (sid <= t /\ (t - sid) mod 2 = 0 /\ (t - sid) / 2 < M)
     && _valid_stage self (prev_stage self)
  then [RecvActivation (_buffer_idx self ((t - sid) / 2))] else [].
Proof.
  intros Ht Hs. unfold cmds_at. rewrite filter_RecvActivation_step_cmds.
  stride_cases t.
Qed.

Lemma filter_RecvGrad_cmds_at (t : Z) :
  0 <= t -> 0 <= sid < NS ->
  List.filter is_RecvGrad (cmds_at self t) =
  if bool_decide (2 * NS - sid - 1 <= t /\
                  (t - (2 * NS - sid - 1)) mod 2 = 0 /\
                  (t - (2 * NS - sid - 1)) / 2 < M)
     && _valid_stage self (next_stage self)
  then [RecvGrad (_buffer_idx self ((t - (2 * NS - sid - 1)) / 2))] else [].
Proof.
  intros Ht Hs. unfold cmds_at. rewrite filter_RecvGrad_step_cmds.
  stride_cases t.
Qed.

Lemma filter_SendGrad_cmds_at (t : Z) :
  0 <= t -> 0 <= sid < NS ->
  List.filter is_SendGrad (cmds_at self t) =
  if bool_decide (2 * NS - sid <= t /\ (t - (2 * NS - sid)) mod 2 = 0 /\
                  (t - (2 * NS - sid)) / 2 < M)
     && _valid_stage self (prev_stage self)
  then [SendGrad (_buffer_idx self ((t - (2 * NS - sid)) / 2))] else [].
Proof.
  intros Ht Hs. unfold cmds_at. rewrite filter_SendGrad_step_cmds.
  stride_cases t.
Qed.

Lemma filter_stream_cmds_at (f : instruction -> bool) :
  List.filter f (stream self) =
  flat_map (fun t => List.filter f (cmds_at self t))
           (seqZ 0 (2 * (M + NS - 1))).
Proof.
  unfold stream. rewrite steps_cmds_at.
  induction (seqZ 0 (2 * (M + NS - 1))) as [|t l IH]; [done|].
  rewrite fmap_cons. cbn [concat flat_map]. by rewrite List.filter_app, IH.
Qed.

Lemma flat_map_nil_seqZ {B} (f : Z -> list B) (n : Z) :
  (forall t, 0 <= t < n -> f t = []) -> flat_map f (seqZ 0 n) = [].
Proof.
  intros Hf. assert (Hall : Forall (fun t => f t = []) (seqZ 0 n)).
  { apply Forall_seqZ. intros t Ht. apply Hf. lia. }
  induction Hall as [|t l Ht _ IH]; simpl; [done|]. by rewrite Ht.
Qed.

Ltac count_p2p lem g a :=
  rewrite filter_stream_cmds_at;
  match goal with
  | |- context [_valid_stage self ?st] =>
      let Hv := fresh "Hv" in
      destruct (_valid_stage self st) eqn:Hv;
      [ replace (2 * (M + NS - 1))
          with (Z.of_nat (Z.to_nat (2 * (M + NS - 1)))) by lia;
        unfold _valid_stage, prev_stage, next_stage in Hv;
        rewrite (flat_map_stride _ g a M);
        [ do 2 f_equal; div_lia
        | lia
        | intros t Ht; rewrite lem by lia;
          unfold _valid_stage, prev_stage, next_stage;
          rewrite Hv, andb_true_r; reflexivity ]
      | apply flat_map_nil_seqZ; intros t Ht; rewrite lem by lia;
        by rewrite Hv, andb_false_r ]
  end.

(** X4. Over a batch, a stage that has a next stage sends M activations and
    receives M gradients, and a stage that has a previous stage receives M
    activations and sends M gradients, each in microbatch order; a stage
    without that neighbour has none of them. *)
Theorem p2p_once_per_microbatch :
  1 <= M -> 1 <= NS -> 0 <= sid < NS ->
  List.filter is_SendActivation (stream self) =
    (if _valid_stage self (next_stage self)
     then (fun i => SendActivation (_buffer_idx self i)) <$> seqZ 0 M
     else []) /\
  List.filter is_RecvGrad (stream self) =
    (if _valid_stage self (next_stage self)
     then (fun i => RecvGrad (_buffer_idx self i)) <$> seqZ 0 M
     else []) /\
  List.filter is_RecvActivation (stream self) =
    (if _valid_stage self (prev_stage self)
     then (fun i => RecvActivation (_buffer_idx self i)) <$> seqZ 0 M
     else []) /\
  List.filter is_SendGrad (stream self) =
    (if _valid_stage self (prev_stage self)
     then (fun i => SendGrad (_buffer_idx self i)) <$> seqZ 0 M
     else []).
Proof.
  intros HM HS Hs. split; [|split; [|split]].
  - count_p2p filter_SendActivation_cmds_at
      (fun i => SendActivation (_buffer_idx self i)) (stage_id self + 1).
  - count_p2p filter_RecvGrad_cmds_at
      (fun i => RecvGrad (_buffer_idx self i))
      (2 * stages self - stage_id self - 1).
  - count_p2p filter_RecvActivation_cmds_at
      (fun i => RecvActivation (_buffer_idx self i)) (stage_id self).
  - count_p2p filter_SendGrad_cmds_at
      (fun i => SendGrad (_buffer_idx self i))
      (2 * stages self - stage_id self).
Qed.

(** Membership in a group, read off its filtered form. *)
Lemma elem_of_stride_group (f : instruction -> bool) (g : Z -> instruction)
    (cmds : list instruction) (a t : Z) (v : bool) (x : instruction) :
  f x = true ->
  List.filter f cmds =
    (if bool_decide (a <= t /\ (t - a) mod 2 = 0 /\ (t - a) / 2 < M) && v
     then [g ((t - a) / 2)] else []) ->
  x ∈ cmds <->
  v = true /\ exists i, 0 <= i < M /\ t = a + 2 * i /\ x = g i.
Proof.
  intros Hfx Hfilter.
  assert (Hin : x ∈ cmds <-> x ∈ List.filter f cmds).
  { rewrite !list_elem_of_In, List.filter_In. naive_solver. }
  rewrite Hin, Hfilter. clear Hin Hfilter.
  case_bool_decide as Hd; destruct v; simpl;
    rewrite ?list_elem_of_singleton, ?elem_of_nil.
  - destruct Hd as (H1 & H2 & H3). split.
    + intros ->. split; [done|]. exists ((t - a) / 2).
      split; [div_lia|]. split; [div_lia|done].
    + intros (_ & i & Hi & -> & ->). do 2 f_equal. div_lia.
  - naive_solver.
  - split; [done|]. intros (_ & i & Hi & -> & _). apply Hd. div_lia.
  - naive_solver.
Qed.

End ScheduleStepFacts.

Section SchedulePairing.

Import Schedule ScheduleSteps.
Local Open Scope Z_scope.

Variable self : OobleckPipelineSchedule.

Abbreviation next := (next_stage_schedule self).

Hypothesis stage_has_next :
  0 <= stage_id self /\ stage_id self + 1 < stages self.

Lemma SendActivation_at (t b : Z) :
  0 <= t ->
  SendActivation b ∈ cmds_at self t <->
  exists i, 0 <= i < micro_batches self /\ t = stage_id self + 1 + 2 * i /\
            b = _buffer_idx self i.
Proof using stage_has_next.
  intros Ht.
  rewrite (elem_of_stride_group self is_SendActivation
             (fun i => SendActivation (_buffer_idx self i)) _ _ _ _
             (SendActivation b) eq_refl
             (filter_SendActivation_cmds_at self t Ht (proj1 stage_has_next))).
  unfold _valid_stage, next_stage.
  split; [intros (_ & i & ? & ? & [= ->]); eauto|].
  intros (i & ? & ? & ->). split; [lia|eauto].
Qed.

Lemma RecvGrad_at (t b : Z) :
  0 <= t ->
  RecvGrad b ∈ cmds_at self t <->
  exists i, 0 <= i < micro_batches self /\
            t = 2 * stages self - stage_id self - 1 + 2 * i /\
            b = _buffer_idx self i.
Proof using stage_has_next.
  intros Ht.
  rewrite (elem_of_stride_group self is_RecvGrad
             (fun i => RecvGrad (_buffer_idx self i)) _ _ _ _
             (RecvGrad b) eq_refl
             (filter_RecvGrad_cmds_at self t Ht ltac:(lia))).
  unfold _valid_stage, next_stage.
  split; [intros (_ & i & ? & ? & [= ->]); eauto|].
  intros (i & ? & ? & ->). split; [lia|eauto].
Qed.

Lemma RecvActivation_at_next (t b : Z) :
  0 <= t ->
  RecvActivation b ∈ cmds_at next t <->
  exists i, 0 <= i < micro_batches self /\ t = stage_id self + 1 + 2 * i /\
            b = _buffer_idx next i.
Proof using stage_has_next.
  intros Ht.
  rewrite (elem_of_stride_group next is_RecvActivation
             (fun i => RecvActivation (_buffer_idx next i)) _ _ _ _
             (RecvActivation b) eq_refl
             (filter_RecvActivation_cmds_at next t Ht ltac:(simpl; lia))).
  unfold _valid_stage, prev_stage. simpl.
  split; [intros (_ & i & ? & ? & [= ->]); eauto|].
  intros (i & ? & ? & ->). split; [lia|eauto].
Qed.

Lemma SendGrad_at_next (t b : Z) :
  0 <= t ->
  SendGrad b ∈ cmds_at next t <->
  exists i, 0 <= i < micro_batches self /\
            t = 2 * stages self - stage_id self - 1 + 2 * i /\
            b = _buffer_idx next i.
Proof using stage_has_next.
  intros Ht.
  rewrite (elem_of_stride_group next is_SendGrad
             (fun i => SendGrad (_buffer_idx next i)) _ _ _ _
             (SendGrad b) eq_refl
             (filter_SendGrad_cmds_at next t Ht ltac:(simpl; lia))).
  unfold _valid_stage, prev_stage. simpl.
  split.
  - intros (_ & i & ? & ? & [= ->]). exists i.
    split; [done|]. split; [lia|done].
  - intros (i & ? & ? & ->). split; [lia|]. exists i.
    split; [done|]. split; [lia|done].
Qed.

(** X5. Two neighbouring stages exchange at the same step: whenever the
    group that stage s yields at a step sends the activation of a
    microbatch, the group that stage s+1 yields at that step receives the
    activation of that microbatch, and the other way round; likewise for
    the gradient that stage s+1 sends and stage s receives. *)
Theorem sends_meet_receives (k : nat) (here there : list instruction) :
  steps self !! k = Some here ->
  steps next !! k = Some there ->
  (forall b, SendActivation b ∈ here ->
     exists i, 0 <= i < micro_batches self /\ b = _buffer_idx self i /\
               RecvActivation (_buffer_idx next i) ∈ there) /\
  (forall b, RecvActivation b ∈ there ->
     exists i, 0 <= i < micro_batches self /\ b = _buffer_idx next i /\
               SendActivation (_buffer_idx self i) ∈ here) /\
  (forall b, SendGrad b ∈ there ->
     exists i, 0 <= i < micro_batches self /\ b = _buffer_idx next i /\
               RecvGrad (_buffer_idx self i) ∈ here) /\
  (forall b, RecvGrad b ∈ here ->
     exists i, 0 <= i < micro_batches self /\ b = _buffer_idx self i /\
               SendGrad (_buffer_idx next i) ∈ there).
Proof using stage_has_next.
  intros [-> _]%lookup_steps_cmds_at [-> _]%lookup_steps_cmds_at.
  assert (Hk : 0 <= Z.of_nat k) by lia.
  split; [|split; [|split]]; intros b Hb.
  - apply SendActivation_at in Hb as (i & Hi & Ht & ->); [|done].
    exists i. split; [done|]. split; [done|].
    apply RecvActivation_at_next; eauto.
  - apply RecvActivation_at_next in Hb as (i & Hi & Ht & ->); [|done].
    exists i. split; [done|]. split; [done|].
    apply SendActivation_at; eauto.
  - apply SendGrad_at_next in Hb as (i & Hi & Ht & ->); [|done].
    exists i. split; [done|]. split; [done|].
    apply RecvGrad_at; eauto.
  - apply RecvGrad_at in Hb as (i & Hi & Ht & ->); [|done].
    exists i. split; [done|]. split; [done|].
    apply SendGrad_at_next; eauto.
Qed.

Lemma toward_next_step_cmds (sch : OobleckPipelineSchedule) (prev t : Z) :
  omap toward_next (step_cmds sch prev t) =
  replicate (length (List.filter is_RecvGrad (step_cmds sch prev t))) Gradient
  ++ replicate (length (List.filter is_SendActivation (step_cmds sch prev t)))
       Activation.
Proof.
  unfold step_cmds.
  destruct (_step_to_micro_batch sch t) as [mb fwd].
  destruct (stage_id sch =? 0), (stage_id sch =? stages sch - 1),
    fwd, (_valid_micro_batch sch prev), (_valid_micro_batch sch mb),
    (_valid_stage sch (prev_stage sch)),
    (_valid_stage sch (next_stage sch)); reflexivity.
Qed.

Lemma toward_prev_step_cmds (sch : OobleckPipelineSchedule) (prev t : Z) :
  omap toward_prev (step_cmds sch prev t) =
  replicate (length (List.filter is_SendGrad (step_cmds sch prev t))) Gradient
  ++ replicate (length (List.filter is_RecvActivation (step_cmds sch prev t)))
       Activation.
Proof.
  unfold step_cmds.
  destruct (_step_to_micro_batch sch t) as [mb fwd].
  destruct (stage_id sch =? 0), (stage_id sch =? stages sch - 1),
    fwd, (_valid_micro_batch sch prev), (_valid_micro_batch sch mb),
    (_valid_stage sch (prev_stage sch)),
    (_valid_stage sch (next_stage sch)); reflexivity.
Qed.

(** X19. Two neighbouring stages take their blocking P2P calls of a step
    in matching order: what the group of stage s puts on and takes off the
    link to stage s+1, in the order of the group, is what the group of
    stage s+1 at the same step takes off and puts on that link, in the
    order of its group (a gradient before an activation). *)
Theorem p2p_order_matches (k : nat) (here there : list instruction) :
  steps self !! k = Some here ->
  steps next !! k = Some there ->
  omap toward_next here = omap toward_prev there.
Proof using stage_has_next.
  intros [-> _]%lookup_steps_cmds_at [-> _]%lookup_steps_cmds_at.
  assert (Hk : 0 <= Z.of_nat k) by lia.
  destruct stage_has_next as [Hs0 Hs1].
  rewrite (toward_next_step_cmds self _ _
           : omap toward_next (cmds_at self _) = _).
  rewrite (toward_prev_step_cmds next _ _
           : omap toward_prev (cmds_at next _) = _).
  change (step_cmds self _ (Z.of_nat k)) with (cmds_at self (Z.of_nat k)).
  change (step_cmds next _ (Z.of_nat k)) with (cmds_at next (Z.of_nat k)).
  rewrite filter_RecvGrad_cmds_at, filter_SendActivation_cmds_at by lia.
  rewrite filter_SendGrad_cmds_at, filter_RecvActivation_cmds_at
    by (simpl; lia).
  assert (Hv1 : _valid_stage self (next_stage self) = true)
    by (unfold _valid_stage, next_stage; lia).
  assert (Hv2 : _valid_stage next (prev_stage next) = true)
    by (unfold _valid_stage, prev_stage; simpl; lia).
  rewrite Hv1, Hv2, !andb_true_r. simpl.
  repeat case_bool_decide; simpl; try reflexivity; exfalso;
    repeat match goal with
           | H : ¬ (_ /\ _ /\ _) |- _ => apply H; clear H
           end; div_lia.
Qed.

End SchedulePairing.

Section ScheduleStepExamples.

Import Schedule ScheduleSteps.
Local Open Scope Z_scope.

Lemma buffer_ids_within_pipe_buffers_witness :
  SendActivation 1 ∈ stream (smallest_pipeline 0) /\
  0 <= 1 < num_pipe_buffers (smallest_pipeline 0).
Proof.
  assert (Hin : SendActivation 1 ∈ stream (smallest_pipeline 0)).
  { apply list_elem_of_In. vm_compute. tauto. }
  split; [exact Hin|].
  exact (buffer_ids_within_pipe_buffers (smallest_pipeline 0)
           (SendActivation 1) 1 Hin eq_refl).
Defined.

Lemma step_group_shape_witness :
  [RecvGrad 0; SendActivation 1; BackwardPass 0]
    ∈ steps (smallest_pipeline 0) /\
  OptimizerStep ∉ [RecvGrad 0; SendActivation 1; BackwardPass 0].
Proof.
  assert (Hin : [RecvGrad 0; SendActivation 1; BackwardPass 0]
                  ∈ steps (smallest_pipeline 0)).
  { apply list_elem_of_In. vm_compute. tauto. }
  split; [exact Hin|].
  exact (proj2 (proj2 (proj2 (proj2 (proj2
           (step_group_shape (smallest_pipeline 0) _ Hin)))))).
Defined.

(** Scenario 2: the middle stage of three loads nothing. *)
Lemma load_microbatch_at_the_ends_witness :
  (1 <= 3 /\ 1 <= 3 /\ 0 <= 1 < 3) /\
  List.filter is_LoadMicroBatch (stream middle_stage) = [].
Proof.
  split; [lia|].
  exact (load_microbatch_at_the_ends middle_stage
           ltac:(simpl; lia) ltac:(simpl; lia) ltac:(simpl; lia)).
Defined.

(** Scenario 1: stage 0 sends four activations. *)
Lemma p2p_once_per_microbatch_witness :
  (1 <= 4 /\ 1 <= 2 /\ 0 <= 0 < 2) /\
  List.filter is_SendActivation (stream (smallest_pipeline 0)) =
  [SendActivation 0; SendActivation 1; SendActivation 0; SendActivation 1].
Proof.
  split; [lia|].
  exact (proj1 (p2p_once_per_microbatch (smallest_pipeline 0)
                  ltac:(simpl; lia) ltac:(simpl; lia) ltac:(simpl; lia))).
Defined.

(** Scenario 1, step 3: stage 0 sends an activation and receives a
    gradient, stage 1 receives the one and sends the other. *)
Lemma sends_meet_receives_witness :
  (0 <= 0 /\ 0 + 1 < 2) /\
  exists i, 0 <= i < 4 /\ 1 = _buffer_idx (smallest_pipeline 0) i /\
    RecvActivation (_buffer_idx (smallest_pipeline 1) i)
      ∈ [SendGrad 0; RecvActivation 1; LoadMicroBatch 1; ForwardPass 1].
Proof.
  split; [lia|].
  refine (proj1 (sends_meet_receives (smallest_pipeline 0)
                   ltac:(simpl; lia) 3
                   [RecvGrad 0; SendActivation 1; BackwardPass 0]
                   [SendGrad 0; RecvActivation 1; LoadMicroBatch 1;
                    ForwardPass 1]
                   eq_refl eq_refl) 1 _).
  apply list_elem_of_In. simpl. tauto.
Defined.

Lemma p2p_order_matches_witness :
  (0 <= 0 /\ 0 + 1 < 2) /\
  omap toward_next [RecvGrad 0; SendActivation 1; BackwardPass 0] =
  omap toward_prev
    [SendGrad 0; RecvActivation 1; LoadMicroBatch 1; ForwardPass 1].
Proof.
  split; [lia|].
  exact (p2p_order_matches (smallest_pipeline 0) ltac:(simpl; lia) 3
           [RecvGrad 0; SendActivation 1; BackwardPass 0]
           [SendGrad 0; RecvActivation 1; LoadMicroBatch 1; ForwardPass 1]
           eq_refl eq_refl).
Defined.

End ScheduleStepExamples.

(** ** The transport, further *)

Section TransportMoreFacts.

Import Transport Delivery.

Context `{Torch}.

Lemma length_flat_map_tensor_meta (tensors : list tensor) :
  length (flat_map tensor_meta tensors) = (4 * length tensors)%nat.
Proof. induction tensors as [|t ts IH]; simpl; [done|]. rewrite IH. lia. Qed.

Lemma filter_LongTensor_meta (tensors : list tensor) :
  List.filter is_LongTensor (flat_map tensor_meta tensors) =
  flat_map tensor_meta tensors.
Proof. induction tensors as [|t ts IH]; simpl; [done|]. by rewrite IH. Qed.

Lemma filter_LongTensor_payload (tensors : list tensor) :
  List.filter is_LongTensor (Payload <$> tensors) = [].
Proof. induction tensors as [|t ts IH]; simpl; done. Qed.

Lemma filter_not_LongTensor_payload (tensors : list tensor) :
  List.filter (fun m => negb (is_LongTensor m)) (Payload <$> tensors) =
  Payload <$> tensors.
Proof.
  induction tensors as [|t ts IH]; [done|].
  rewrite fmap_cons. cbn [List.filter is_LongTensor negb]. by rewrite IH.
Qed.

Lemma filter_not_LongTensor_meta (tensors : list tensor) :
  List.filter (fun m => negb (is_LongTensor m)) (flat_map tensor_meta tensors)
  = [].
Proof. induction tensors as [|t ts IH]; simpl; done. Qed.

(** X6. A [send_activations] call returns exactly when its outputs slot
    exists and holds a tuple: an index out of range raises IndexError and
    an empty slot AssertionError, with or without the envelope sent
    before. When it returns, the flag is set and what it has sent is, in
    this order: on the first call only, the envelope (the number of tensors,
    then [ndims], [dtype], [shape], [requires_grad] for each tensor:
    1 + 4*n integer messages), and then one payload per tensor of the
    tuple, in tuple order. *)
Theorem send_activations_outcome (self : PipelineCommunication)
    (bufs : pipe_buffers (list tensor)) (buffer_id : nat) :
  match outputs bufs !! buffer_id with
  | None =>
      send_activations self bufs buffer_id =
      Raise (IndexError "list index out of range")
  | Some None =>
      exists msg, send_activations self bufs buffer_id =
                  Raise (AssertionError msg)
  | Some (Some outs) =>
      exists self' sent,
        send_activations self bufs buffer_id = Ok (self', sent) /\
        sent_activation_meta self' = true /\
        sent =
          (if sent_activation_meta self then []
           else LongTensor [Z.of_nat (length outs)]
                  :: flat_map tensor_meta outs)
          ++ (Payload <$> outs) /\
        length (LongTensor [Z.of_nat (length outs)]
                  :: flat_map tensor_meta outs) =
          envelope_length (length outs) /\
        List.filter (fun m => negb (is_LongTensor m)) sent = Payload <$> outs /\
        length (List.filter is_LongTensor sent) =
          (if sent_activation_meta self then 0%nat
           else envelope_length (length outs))
  end.
Proof.
  unfold send_activations, getitem.
  destruct (outputs bufs !! buffer_id) as [[outs|]|]; [|simpl|done].
  - assert (Hlen : length (LongTensor [Z.of_nat (length outs)]
                             :: flat_map tensor_meta outs) =
                   envelope_length (length outs)).
    { cbn [length]. rewrite length_flat_map_tensor_meta.
      unfold envelope_length. lia. }
    destruct self as [[] a g]; simpl.
    + eexists _, _. split; [reflexivity|]. split; [done|]. split; [done|].
      split; [exact Hlen|].
      rewrite filter_not_LongTensor_payload, filter_LongTensor_payload. done.
    + eexists _, _. split; [reflexivity|]. split; [done|]. split; [done|].
      split; [exact Hlen|].
      change (flat_map _ outs) with (flat_map tensor_meta outs).
      cbn [List.filter is_LongTensor negb length].
      rewrite !List.filter_app, filter_LongTensor_payload, app_nil_r,
        filter_not_LongTensor_payload, filter_not_LongTensor_meta,
        filter_LongTensor_meta, length_flat_map_tensor_meta.
      split; [done|]. unfold envelope_length. lia.
  - destruct (sent_activation_meta self); simpl; by eexists.
Qed.

Lemma zip_with_delivered (buf ts : list tensor) :
  (fun b => set_requires_grad (t_requires_grad b) (clone_detach b)) <$>
    zip_with received_into buf ts =
  zip_with delivered buf ts.
Proof.
  revert ts; induction buf as [|b buf IH]; intros [|t ts]; simpl; try done.
  by rewrite IH.
Qed.

(** X7. With its persistent buffers in place, [recv_activations] on the
    payloads of a tuple that fits them stores in the inputs slot of
    [buffer_id], and nowhere else, one tensor per payload: the values of
    the payload, the size, dtype, device and requires_grad of the buffer,
    and no [.grad]. *)
Theorem recv_activations_delivers (self : PipelineCommunication)
    (bufs : pipe_buffers (list tensor)) (buffer_id : nat)
    (buf outs : list tensor) (rest : channel) :
  activation_recv_buf self = Some buf ->
  Forall2 fits buf outs ->
  (buffer_id < length (inputs bufs))%nat ->
  exists self' bufs',
    recv_activations self bufs buffer_id ((Payload <$> outs) ++ rest) =
      Ok (self', bufs', rest) /\
    inputs bufs' = <[buffer_id := Some (zip_with delivered buf outs)]>
                     (inputs bufs) /\
    labels bufs' = labels bufs /\ outputs bufs' = outputs bufs /\
    Forall2 (fun r o => t_data r = t_data o /\ t_size r = t_size o /\
                        t_dtype r = t_dtype o /\ t_grad r = None)
            (zip_with delivered buf outs) outs /\
    Forall2 (fun r b => t_requires_grad r = t_requires_grad b /\
                        t_device r = t_device b)
            (zip_with delivered buf outs) buf.
Proof.
  intros Hbuf Hfits Hid. unfold recv_activations. rewrite Hbuf. cbn [bind].
  rewrite recv_activations_loop_payloads by done. cbn [bind].
  unfold setitem. rewrite decide_True by done. cbn [bind].
  eexists _, _. split; [reflexivity|]. cbn [inputs labels outputs].
  rewrite zip_with_delivered. split; [done|]. split; [done|]. split; [done|].
  split.
  - clear -Hfits.
    induction Hfits as [|b o buf outs [Hs Hd] _ IH]; simpl; [constructor|].
    constructor; [by repeat split|done].
  - clear -Hfits.
    induction Hfits as [|b o buf outs _ _ IH]; simpl; [constructor|].
    constructor; [by repeat split|done].
Qed.

(** *** Gradients, further *)

Lemma send_gradients_loop_inv (ins : list tensor) (sent : list message) :
  send_gradients_loop ins = Ok sent -> Forall grad_consistent ins.
Proof.
  revert sent; induction ins as [|t ins IH]; intros sent Hs; [constructor|].
  simpl in Hs. constructor.
  - unfold grad_consistent.
    destruct (t_requires_grad t), (t_grad t) as [g|]; simpl in *;
      try done; by eexists.
  - destruct (t_requires_grad t), (t_grad t) as [g|]; simpl in Hs; try done.
    + destruct (send_gradients_loop ins) as [s|] eqn:Hl; [|done].
      by eapply IH.
    + by eapply IH.
Qed.

(** X8. [send_gradients] returns exactly when its inputs slot holds a tuple
    whose tensors each have a [.grad] if and only if they require one; it
    then frees that slot and leaves every other slot as it was. *)
Theorem send_gradients_returns_iff (bufs : pipe_buffers (list tensor))
    (buffer_id : nat) :
  ((exists r, send_gradients bufs buffer_id = Ok r) <->
   (exists ins, inputs bufs !! buffer_id = Some (Some ins) /\
                Forall grad_consistent ins)) /\
  (forall bufs' sent,
     send_gradients bufs buffer_id = Ok (bufs', sent) ->
     inputs bufs' = <[buffer_id := None]> (inputs bufs) /\
     labels bufs' = labels bufs /\ outputs bufs' = outputs bufs).
Proof.
  unfold send_gradients, getitem, setitem.
  destruct (inputs bufs !! buffer_id) as [[ins|]|] eqn:Hslot; cbn [bind].
  - pose proof (lookup_lt_Some _ _ _ Hslot) as Hlt.
    rewrite decide_True by done.
    destruct (send_gradients_loop ins) as [sent|e] eqn:Hloop; cbn [bind].
    + split; [|by intros bufs' sent' [= <- <-]].
      split; [intros _|by eexists].
      exists ins. split; [done|]. by eapply send_gradients_loop_inv.
    + split; [|done]. split; [by intros [r Hr]|].
      intros (ins' & [= <-] & Hc).
      by rewrite send_gradients_loop_ok in Hloop.
  - split; [|done]. split; [by intros [r Hr]|]. by intros (ins & Hi & _).
  - split; [|done]. split; [by intros [r Hr]|]. by intros (ins & Hi & _).
Qed.

Lemma recv_gradients_loop_payloads (buf gs : list tensor) (rest : channel) :
  Forall2 fits buf gs ->
  recv_gradients_loop buf ((Payload <$> gs) ++ rest) =
  Ok (zip_with received_into buf gs, rest).
Proof.
  induction 1 as [|b g buf gs [Hs Hd] _ IH]; [done|].
  cbn [fmap list_fmap app recv_gradients_loop].
  rewrite _recv_into_ok by done. cbn [bind]. by rewrite IH.
Qed.

(** X9. [recv_gradients] allocates its buffers once: with [grad_recv_buf]
    in place it reads one payload per buffer into those buffers, whatever
    the requires_grad flags of the tuple now in the outputs slot. *)
Theorem recv_gradients_reuses_buffers (self : PipelineCommunication)
    (bufs : pipe_buffers (list tensor)) (buffer_id : nat)
    (outs gbuf gs : list tensor) (rest : channel) :
  outputs bufs !! buffer_id = Some (Some outs) ->
  grad_recv_buf self = Some gbuf ->
  Forall2 fits gbuf gs ->
  exists self',
    recv_gradients self bufs buffer_id ((Payload <$> gs) ++ rest) =
      Ok (self', rest) /\
    grad_recv_buf self' = Some (zip_with received_into gbuf gs) /\
    length (zip_with received_into gbuf gs) = length gbuf /\
    activation_recv_buf self' = activation_recv_buf self /\
    sent_activation_meta self' = sent_activation_meta self.
Proof.
  intros Hslot Hg Hfits. unfold recv_gradients, getitem.
  rewrite Hslot, Hg. cbn [bind].
  rewrite recv_gradients_loop_payloads by done. cbn [bind].
  eexists. split; [reflexivity|]. split; [done|]. split; [|done].
  rewrite length_zip_with. apply Forall2_length in Hfits. lia.
Qed.

(** X10. A gradient round trip. When the next stage sends the gradients of
    its inputs and this stage, with no gradient buffer yet, receives them
    against an outputs tuple with the same requires_grad flags, each
    gradient fitting its output tensor, then [recv_gradients] allocates one
    buffer per output that requires a gradient, reads every message that
    was sent and no more, and leaves in each buffer the values of the
    gradient sent for that position. *)
Theorem gradients_round_trip
    (sbufs rbufs : pipe_buffers (list tensor)) (sid rid : nat)
    (ins outs : list tensor) (receiver : PipelineCommunication)
    (rest : channel) :
  inputs sbufs !! sid = Some (Some ins) ->
  outputs rbufs !! rid = Some (Some outs) ->
  grad_recv_buf receiver = None ->
  Forall2 (fun tin tout =>
             t_requires_grad tin = t_requires_grad tout /\
             grad_consistent tin /\
             forall g, t_grad tin = Some g -> fits tout g) ins outs ->
  exists sbufs' sent receiver' gbuf,
    send_gradients sbufs sid = Ok (sbufs', sent) /\
    recv_gradients receiver rbufs rid (sent ++ rest) = Ok (receiver', rest) /\
    grad_recv_buf receiver' = Some gbuf /\
    Forall2 (fun gb tin => exists g, t_grad tin = Some g /\
                                     t_data gb = t_data g)
            gbuf (List.filter t_requires_grad ins) /\
    Forall2 (fun gb tout => t_size gb = t_size tout /\
                            t_dtype gb = t_dtype tout /\
                            t_requires_grad gb = false)
            gbuf (List.filter t_requires_grad outs).
Proof.
  intros Hsid Hrid Hnone Hall.
  pose proof (lookup_lt_Some _ _ _ Hsid) as Hlt.
  assert (Hgc : Forall grad_consistent ins).
  { clear -Hall. induction Hall as [|? ? ? ? (_ & ? & _)]; constructor; done. }
  assert (Hfits : Forall2 fits
            (torch_zeros_like <$> List.filter t_requires_grad outs)
            (omap t_grad (List.filter t_requires_grad ins))).
  { clear -Hall. induction Hall as [|tin tout ins outs (Hrg & Hc & Hf) _ IH];
      simpl; [constructor|].
    rewrite <- Hrg. unfold grad_consistent in Hc.
    destruct (t_requires_grad tin); [|done].
    destruct Hc as [g Hg]. simpl. rewrite Hg. constructor; [|done].
    destruct (Hf g Hg) as [Hs Hd]. by split. }
  eexists _, _, _, _. split; [|split; [|split; [|split]]].
  - unfold send_gradients, getitem, setitem. rewrite Hsid. cbn [bind].
    rewrite send_gradients_loop_ok by done. cbn [bind].
    rewrite decide_True by done. reflexivity.
  - unfold recv_gradients, getitem. rewrite Hrid, Hnone. cbn [bind].
    rewrite create_gradients_buffer_filter.
    rewrite recv_gradients_loop_payloads by done. reflexivity.
  - reflexivity.
  - clear -Hall. induction Hall as [|tin tout ins outs (Hrg & Hc & Hf) _ IH];
      simpl; [constructor|].
    rewrite <- Hrg. unfold grad_consistent in Hc.
    destruct (t_requires_grad tin); [|done].
    destruct Hc as [g Hg]. simpl. rewrite Hg. constructor; [|done].
    by exists g.
  - clear -Hall. induction Hall as [|tin tout ins outs (Hrg & Hc & Hf) _ IH];
      simpl; [constructor|].
    rewrite <- Hrg. unfold grad_consistent in Hc.
    destruct (t_requires_grad tin); [|done].
    destruct Hc as [g Hg]. simpl. rewrite Hg. constructor; [|done].
    by repeat split.
Qed.

End TransportMoreFacts.

(** ** The stage runtime, further *)

Section ExecutionMoreFacts.

Import Execution.

Context `{Torch}.

(** X11. How [load_microbatch] fails: with no layer on the stage, the
    stage test itself raises IndexError; on the first stage, an exhausted
    dataloader iterator raises StopIteration, and a buffer id past the
    inputs slots raises IndexError (the batch taken from the iterator is
    then lost). *)
Theorem load_microbatch_failures (self : PipelineExecution) (buffer_id : nat) :
  (model_layers self = [] ->
   load_microbatch self buffer_id =
   Raise (IndexError "list index out of range")) /\
  (model_layers self !! 0%nat = Some 0%Z -> data_iterator self = [] ->
   load_microbatch self buffer_id = Raise StopIteration) /\
  (model_layers self !! 0%nat = Some 0%Z ->
   data_iterator self <> [] ->
   (length (inputs (buffers self)) <= buffer_id)%nat ->
   load_microbatch self buffer_id =
   Raise (IndexError "list assignment index out of range")).
Proof.
  unfold load_microbatch, is_first_stage, getitem, setitem.
  split; [|split].
  - by intros ->.
  - intros -> ->. done.
  - intros -> Hit Hid. simpl.
    destruct (data_iterator self) as [|batch rest]; [done|].
    rewrite decide_False by lia. done.
Qed.

Lemma _prepare_tensor_idempotent (t : tensor) :
  _prepare_tensor (_prepare_tensor t) = _prepare_tensor t.
Proof. reflexivity. Qed.

(** X12. [_prepare_input] is idempotent: preparing a prepared value changes
    nothing, at any depth of nesting. *)
Theorem _prepare_input_idempotent (d : data) :
  _prepare_input (_prepare_input d) = _prepare_input d.
Proof.
  induction d as [items IH|elems IH|elems IH|t|repr] using data_nested_ind;
    simpl; try done.
  - f_equal. induction IH as [|kv items Hkv _ IH]; simpl; [done|].
    f_equal; [by rewrite Hkv|exact IH].
  - f_equal. induction IH as [|x elems Hx _ IH]; simpl; [done|].
    f_equal; [exact Hx|exact IH].
  - f_equal. induction IH as [|x elems Hx _ IH]; simpl; [done|].
    f_equal; [exact Hx|exact IH].
Qed.

(** X13. For a value built from plain dicts, tuples and lists (the values
    of [data]; a subclass whose constructor does not take what
    [type(data)(...)] passes is not one), [_prepare_input] rebuilds a value
    that holds no tensor into an equal value, and [_prepare_inputs] yields
    one entry per item of the batch. *)
Theorem _prepare_input_without_tensors (d : data)
    (batch : list (string * data)) :
  (tensors_in d = [] -> _prepare_input d = d) /\
  length (_prepare_inputs batch) = length batch.
Proof.
  split; [|unfold _prepare_inputs; by rewrite length_fmap].
  induction d as [items IH|elems IH|elems IH|t|repr] using data_nested_ind;
    simpl; try done.
  - intros Hnil. f_equal.
    induction IH as [|[k v] items Hkv _ IH]; simpl in *; [done|].
    apply app_eq_nil in Hnil as [Hv Hrest].
    f_equal; [by rewrite Hkv|by apply IH].
  - intros Hnil. f_equal.
    induction IH as [|x elems Hx _ IH]; simpl in *; [done|].
    apply app_eq_nil in Hnil as [Hv Hrest].
    f_equal; [by apply Hx|by apply IH].
  - intros Hnil. f_equal.
    induction IH as [|x elems Hx _ IH]; simpl in *; [done|].
    apply app_eq_nil in Hnil as [Hv Hrest].
    f_equal; [by apply Hx|by apply IH].
Qed.

End ExecutionMoreFacts.

(** ** The engine, further *)

Section EngineMoreFacts.

Import Engine.

(** X14. [execute] hands back the result of a pipeline run only when the
    reconfiguration flag was down, the iterator was valid and the run
    returned that result; and it never takes the [invalidated] mark off an
    iterator. *)
Theorem execute_runs_only_when_valid {A}
    (self self' : ExecutionEngine) (it it' : iterator)
    (before : list watcher_event) (polls : list (list watcher_event))
    (run : result throwable A) (during : list watcher_event)
    (r : result throwable (option A)) :
  execute self it before polls run during = Some (self', it', r) ->
  (forall out, r = Ok (Some out) ->
     need_reconfiguration self = false /\ invalidated it = false /\
     run = Ok out) /\
  (invalidated it = true -> invalidated it' = true).
Proof.
  unfold execute.
  destruct (need_reconfiguration self).
  - destruct (wait_for_watcher polls _) as [[s1|e]|]; try done;
      intros [= <- <- <-]; (split; [by intros out [=]|done]).
  - destruct (invalidated it) eqn:Hit.
    + intros [= <- <- <-]. split; [by intros out [=]|done].
    + destruct run as [out|[e|name msg]].
      * intros [= <- <- <-]. split; [|done]. by intros out' [= ->].
      * destruct (negb (is_teardown e)).
        -- intros [= <- <- <-]. split; [by intros out [=]|done].
        -- destruct (setattr_invalidated it); intros [= <- <- <-];
             (split; [by intros out [=]|done]).
      * intros [= <- <- <-]. split; [by intros out [=]|done].
Qed.

(** X15. From a state the engine can reach, [execute] raises only: the
    RuntimeError for an invalidated iterator; what the pipeline run raised,
    when that is not a teardown error deriving from [Exception]; or the
    AttributeError of line 244, when the run raised a teardown error and the
    iterator takes no attribute. In each case the flag was down: the wait
    for the watcher never fails on a missing thread. *)
Theorem execute_raises_only {A}
    (self self' : ExecutionEngine) (it it' : iterator)
    (before : list watcher_event) (polls : list (list watcher_event))
    (run : result throwable A) (during : list watcher_event)
    (x : throwable) :
  reachable self ->
  execute self it before polls run during = Some (self', it', Raise x) ->
  need_reconfiguration self = false /\ it' = it /\
  ((invalidated it = true /\
    x = Exc (RuntimeError
      "The dataloader iterator has been invalidated. Please recreate the iterator before resuming training.")) \/
   (invalidated it = false /\ run = Raise x /\
    forall e, x = Exc e -> is_teardown e = false) \/
   (invalidated it = false /\ takes_attributes it = false /\
    (exists e, run = Raise (Exc e) /\ is_teardown e = true) /\
    x = Exc (AttributeError
               ("'" +:+ class_name it +:+
                "' object has no attribute 'invalidated'")))).
Proof.
  intros Hreach. unfold execute.
  destruct (need_reconfiguration self) eqn:Hflag.
  - destruct (wait_for_watcher polls _) as [[s1|e1]|] eqn:Hwait; try done.
    apply wait_for_watcher_raises in Hwait.
    pose proof (watcher_steps_thread before self
                  (reachable_flag_has_watcher self Hreach Hflag)) as Hs.
    rewrite Hwait in Hs. by destruct Hs.
  - destruct (invalidated it) eqn:Hit.
    + intros [= <- <- <-]. split; [done|]. split; [done|]. by left.
    + destruct run as [out|[e1|name msg]]; [done| |].
      * destruct (is_teardown e1) eqn:Ht; simpl.
        -- unfold setattr_invalidated.
           destruct (takes_attributes it) eqn:Hattr; [done|].
           intros [= <- <- <-]. split; [done|]. split; [done|].
           right; right. repeat split; try done. by exists e1.
        -- intros [= <- <- <-]. split; [done|]. split; [done|].
           right; left. repeat split; try done. by intros e [= <-].
      * intros [= <- <- <-]. split; [done|]. split; [done|].
        right; left. repeat split; try done.
Qed.

End EngineMoreFacts.

(** ** The pipeline constructor after line 497 *)

Section PipelineRestFacts.

Import Pipeline PipelineRest.

Lemma find_stage_execution (self self' : gmap string pyvalue)
    (model : list Z) (stage_index : nat) (stages : list (Z * Z)) :
  self !! "execution" = None ->
  find_stage self model stage_index stages = Ok self' ->
  self' !! "execution" = None.
Proof.
  revert stage_index; induction stages as [|[lo hi] stages IH];
    intros stage_index Hnone; simpl.
  - by intros [= <-].
  - destruct (getattr self "my_rank") as [my_rank|]; [|done]. cbn [bind].
    destruct (in_range my_rank lo hi); simpl.
    + intros [= <-]. by rewrite !lookup_insert_ne.
    + by apply IH.
Qed.

(** X16. Lines 499-546 never complete on an instance that has no
    [execution] attribute: every path to line 527 reads [self.execution],
    which is assigned only at line 543, so the constructor raises there
    (or earlier) whatever [my_rank] is bound to. *)
Theorem init_rest_never_completes (args : rest_args)
    (self : gmap string pyvalue)
    (rest : gmap string pyvalue -> pyvalue ->
            result exception (gmap string pyvalue)) :
  self !! "execution" = None ->
  forall self', init_rest args self rest <> Ok self'.
Proof.
  intros Hnone self'. unfold init_rest.
  destruct (getattr self "my_rank") as [my_rank|]; [|done]. cbn [bind].
  destruct (list_index _ _) as [rank_index|]; [|done]. cbn [bind].
  destruct (prev_rank _ _ _) as [prev|]; [|done]. cbn [bind].
  destruct (next_rank _ _ _) as [next|]; [|done]. cbn [bind].
  destruct (find_stage _ _ _ _) as [self1|] eqn:Hfind; [|done]. cbn [bind].
  apply find_stage_execution in Hfind; [|by rewrite !lookup_insert_ne].
  destruct (getattr self1 "model_layers") as [layers|]; [|done]. cbn [bind].
  destruct (negb (truthy layers)); [done|].
  unfold getattr at 1. by rewrite Hfind.
Qed.

(** X17. The neighbours of a rank. For a position [i] inside [ranks],
    neither lookup of lines 500-509 goes out of range; there is no previous
    rank exactly on the first [num_gpus_per_node] positions and no next
    rank exactly on the last ones; and the two agree: the next rank of the
    position [num_gpus_per_node] places earlier is the rank at [i], and
    the previous rank of the position [num_gpus_per_node] places later is
    the rank at [i] too. *)
Theorem neighbour_ranks (ranks : list Z) (n i : nat) (r : Z) :
  ranks !! i = Some r ->
  (exists p, prev_rank ranks n i = Ok p /\ (p = PyNone <-> (i < n)%nat)) /\
  (exists q, next_rank ranks n i = Ok q /\
             (q = PyNone <-> (length ranks <= i + n)%nat)) /\
  ((n <= i)%nat -> next_rank ranks n (i - n) = Ok (PyInt r)) /\
  (forall q, ranks !! (i + n)%nat = Some q ->
             next_rank ranks n i = Ok (PyInt q) /\
             prev_rank ranks n (i + n) = Ok (PyInt r)).
Proof.
  intros Hi. pose proof (lookup_lt_Some _ _ _ Hi) as Hlt.
  unfold prev_rank, next_rank, getitem. split; [|split; [|split]].
  - case_decide as Hn.
    + destruct (ranks !! (i - n)%nat) as [p|] eqn:Hp.
      * exists (PyInt p). split; [done|]. split; [done|lia].
      * apply lookup_ge_None in Hp. lia.
    + exists PyNone. split; [done|]. split; [lia|done].
  - case_decide as Hn.
    + destruct (ranks !! (i + n)%nat) as [q|] eqn:Hq.
      * exists (PyInt q). split; [done|]. split; [done|lia].
      * apply lookup_ge_None in Hq. lia.
    + exists PyNone. split; [done|]. split; [lia|done].
  - intros Hn. rewrite decide_True by lia.
    replace (i - n + n)%nat with i by lia. by rewrite Hi.
  - intros q Hq. pose proof (lookup_lt_Some _ _ _ Hq) as Hlt'.
    rewrite !decide_True by lia. rewrite Hq.
    replace (i + n - n)%nat with i by lia. by rewrite Hi.
Qed.

End PipelineRestFacts.

(** ** The backward pass *)

Section BackwardFacts.

Import Transport Backward.

Context `{Torch}.

Variable autograd_backward :
  list tensor -> list tensor -> list (option (list tensor)) ->
  result exception (list (option (list tensor))).
Variable loss_backward :
  list (option (list tensor)) -> result exception (list (option (list tensor))).

Lemma recv_gradients_loop_length (buf buf' : list tensor) (ch ch' : channel) :
  recv_gradients_loop buf ch = Ok (buf', ch') -> length buf' = length buf.
Proof.
  revert buf' ch ch'; induction buf as [|b buf IH]; intros buf' ch ch'; simpl.
  - by intros [= <- _].
  - destruct (_recv_into b ch) as [[b1 ch1]|]; [|done]. cbn [bind].
    destruct (recv_gradients_loop buf ch1) as [[buf1 ch2]|] eqn:Hl; [|done].
    cbn [bind]. intros [= <- _]. simpl. f_equal. by eapply IH.
Qed.

(** X18. After a [recv_gradients] that allocated its buffers from the
    tuple in the outputs slot, [backward_pass] on a stage that is not the
    last passes its length assertion for that slot: it fails only if
    autograd does, and when autograd returns, the outputs slot is freed and
    the other outputs and the labels are as before. With gradient buffers
    of another length it fails the assertion without calling autograd. *)
Theorem backward_pass_after_recv_gradients
    (self self' : PipelineCommunication)
    (bufs : pipe_buffers (list tensor)) (buffer_id : nat)
    (outs : list tensor) (ch ch' : channel) :
  outputs bufs !! buffer_id = Some (Some outs) ->
  grad_recv_buf self = None ->
  recv_gradients self bufs buffer_id ch = Ok (self', ch') ->
  (exists gbuf,
     grad_recv_buf self' = Some gbuf /\
     backward_pass autograd_backward loss_backward (Ok false)
       (grad_recv_buf self') bufs buffer_id =
     bind (autograd_backward (List.filter t_requires_grad outs) gbuf
             (inputs bufs))
          (fun inputs' =>
             Ok {| inputs := inputs'; labels := labels bufs;
                   outputs := <[buffer_id := None]> (outputs bufs) |})) /\
  (forall other,
     length other <> length (List.filter t_requires_grad outs) ->
     backward_pass autograd_backward loss_backward (Ok false)
       (Some other) bufs buffer_id = Raise (AssertionError EmptyString)).
Proof.
  intros Hslot Hnone Hrecv.
  pose proof (lookup_lt_Some _ _ _ Hslot) as Hlt.
  unfold recv_gradients, getitem in Hrecv. rewrite Hslot, Hnone in Hrecv.
  cbn [bind] in Hrecv.
  destruct (recv_gradients_loop _ ch) as [[gbuf ch1]|] eqn:Hloop; [|done].
  cbn [bind] in Hrecv. injection Hrecv as <- <-.
  apply recv_gradients_loop_length in Hloop.
  rewrite create_gradients_buffer_filter, length_fmap in Hloop.
  split.
  - exists gbuf. split; [done|]. cbn [grad_recv_buf].
    unfold backward_pass, getitem, setitem. cbn [bind]. rewrite Hslot.
    cbn [bind]. rewrite Hloop, Nat.eqb_refl. cbn [negb].
    destruct (autograd_backward _ _ _) as [inputs'|e]; cbn [bind]; [|done].
    by rewrite decide_True.
  - intros other Hlen. unfold backward_pass, getitem. cbn [bind].
    rewrite Hslot. cbn [bind].
    destruct (Nat.eqb_spec (length (List.filter t_requires_grad outs))
                (length other)) as [He|He]; [congruence|done].
Qed.

End BackwardFacts.

(** ** The further properties on the examples *)

Section MoreWitnesses.

Import Transport Delivery SpecTable MoreExamples.

Lemma recv_activations_delivers_witness :
  exists self' bufs',
    recv_activations receiver_with_buffers receiver_buffers 1
      (Payload <$> activations) = Ok (self', bufs', []) /\
    inputs bufs' =
      [Some received_activations;
       Some (zip_with delivered (receive_buffer_for <$> activations)
               activations)].
Proof.
  destruct (recv_activations_delivers receiver_with_buffers receiver_buffers 1
              (receive_buffer_for <$> activations) activations [] eq_refl)
    as (self' & bufs' & Hrecv & Hin & _).
  { repeat constructor. }
  { simpl. lia. }
  exists self', bufs'. rewrite app_nil_r in Hrecv.
  split; [exact Hrecv|exact Hin].
Defined.

Lemma recv_gradients_reuses_buffers_witness :
  exists self',
    recv_gradients sender_with_grad_buffer sender_buffers 0
      [Payload hidden_states_grad] = Ok (self', []) /\
    grad_recv_buf self' =
      Some [received_into (torch_zeros_like hidden_states)
              hidden_states_grad].
Proof.
  destruct (recv_gradients_reuses_buffers sender_with_grad_buffer
              sender_buffers 0 activations [torch_zeros_like hidden_states]
              [hidden_states_grad] [] eq_refl eq_refl)
    as (self' & Hrecv & Hbuf & _).
  { repeat constructor. }
  exists self'. split; [exact Hrecv|exact Hbuf].
Defined.

Lemma gradients_round_trip_witness :
  exists sbufs' sent receiver' gbuf,
    send_gradients receiver_buffers 0 = Ok (sbufs', sent) /\
    recv_gradients Transport.__init__ sender_buffers 0 (sent ++ []) =
      Ok (receiver', []) /\
    grad_recv_buf receiver' = Some gbuf /\
    Forall2 (fun gb tin => exists g, t_grad tin = Some g /\
                                     t_data gb = t_data g)
            gbuf [received_hidden_states].
Proof.
  destruct (gradients_round_trip receiver_buffers sender_buffers 0 0
              received_activations activations Transport.__init__ []
              eq_refl eq_refl eq_refl)
    as (sbufs' & sent & receiver' & gbuf & Hs & Hr & Hg & Hdata & _).
  { constructor; [|constructor; [|constructor]].
    - split; [reflexivity|]. split; [by eexists|].
      intros g [= <-]. by split.
    - split; [reflexivity|]. split; [reflexivity|]. intros g Hg.
      discriminate Hg. }
  exists sbufs', sent, receiver', gbuf.
  split; [exact Hs|]. split; [exact Hr|]. split; [exact Hg|exact Hdata].
Defined.

Lemma backward_pass_after_recv_gradients_witness :
  recv_gradients Transport.__init__ sender_buffers 0
    [Payload hidden_states_grad] = Ok (sender_after_gradients, []) /\
  Backward.backward_pass Backward.no_autograd Ok (Ok false)
    (grad_recv_buf sender_after_gradients) sender_buffers 0 =
  Ok {| inputs := [None; None]; labels := [None; None];
        outputs := [None; None] |}.
Proof.
  assert (Hrecv : recv_gradients Transport.__init__ sender_buffers 0
            [Payload hidden_states_grad] = Ok (sender_after_gradients, [])).
  { reflexivity. }
  split; [exact Hrecv|].
  destruct (backward_pass_after_recv_gradients Backward.no_autograd Ok
              Transport.__init__ sender_after_gradients sender_buffers 0
              activations [Payload hidden_states_grad] []
              eq_refl eq_refl Hrecv) as ((gbuf & Hg & Hback) & _).
  rewrite Hback. reflexivity.
Defined.

Lemma load_microbatch_failures_witness :
  Execution.load_microbatch exhausted_first_stage 0 = Raise StopIteration.
Proof.
  exact (proj1 (proj2 (load_microbatch_failures exhausted_first_stage 0))
           eq_refl eq_refl).
Defined.

(** A dict that holds a tuple of a string and a list, and a number: every
    container branch is taken and the value comes back equal; a batch of
    two items gives two entries. *)
Lemma _prepare_input_without_tensors_witness :
  Execution._prepare_input
    (Execution.Mapping
       [("meta", Execution.PyTuple
                   [Execution.Other "'train'";
                    Execution.PyList [Execution.Other "0"; Execution.Other "1"]]);
        ("step", Execution.Other "3")]) =
  Execution.Mapping
    [("meta", Execution.PyTuple
                [Execution.Other "'train'";
                 Execution.PyList [Execution.Other "0"; Execution.Other "1"]]);
     ("step", Execution.Other "3")] /\
  length (Execution._prepare_inputs batch) = 2%nat.
Proof.
  split.
  - exact (proj1 (_prepare_input_without_tensors
                    (Execution.Mapping
                       [("meta", Execution.PyTuple
                                   [Execution.Other "'train'";
                                    Execution.PyList
                                      [Execution.Other "0";
                                       Execution.Other "1"]]);
                        ("step", Execution.Other "3")]) batch) eq_refl).
  - exact (proj2 (_prepare_input_without_tensors (Execution.Other "3") batch)).
Defined.

Lemma send_activations_outcome_witness :
  exists self',
    send_activations Transport.__init__ sender_buffers 0 =
    Ok (self',
        (LongTensor [2%Z] :: flat_map Transport.tensor_meta activations)
          ++ (Payload <$> activations)) /\
    length (LongTensor [2%Z] :: flat_map Transport.tensor_meta activations) =
      9%nat.
Proof.
  destruct (send_activations_outcome Transport.__init__ sender_buffers 0)
    as (self' & sent & Hsend & _ & Hsent & Hlen & _).
  exists self'. split; [|exact Hlen].
  rewrite Hsend. f_equal. f_equal. exact Hsent.
Defined.

Lemma send_gradients_returns_iff_witness :
  exists r, send_gradients receiver_buffers 0 = Ok r.
Proof.
  apply (proj1 (send_gradients_returns_iff receiver_buffers 0)).
  exists received_activations. split; [reflexivity|].
  repeat constructor. by eexists.
Defined.

End MoreWitnesses.

Section EngineMoreWitnesses.

Import Engine.

Lemma execute_runs_only_when_valid_witness :
  exists e,
    execute (outputs:=unit) running
      {| class_name := "_SingleProcessDataLoaderIter";
         invalidated := true; takes_attributes := true |} [] [] (Ok tt) [] =
      Some (running,
            {| class_name := "_SingleProcessDataLoaderIter";
               invalidated := true; takes_attributes := true |}, Raise e) /\
    invalidated
      {| class_name := "_SingleProcessDataLoaderIter";
         invalidated := true; takes_attributes := true |} = true.
Proof.
  eexists. split; [reflexivity|].
  exact (proj2 (execute_runs_only_when_valid (A:=unit) running running
                  {| class_name := "_SingleProcessDataLoaderIter";
                     invalidated := true; takes_attributes := true |}
                  {| class_name := "_SingleProcessDataLoaderIter";
                     invalidated := true; takes_attributes := true |}
                  [] [] (Ok tt) [] _ eq_refl) eq_refl).
Defined.

(** A teardown error met with the iterator of a list: the AttributeError of
    line 244 comes out. *)
Lemma execute_raises_only_witness :
  execute (outputs:=unit) running list_iterator [] []
    (Raise (Exc connection_closed)) [] =
  Some (running, list_iterator,
        Raise (Exc (AttributeError
          "'list_iterator' object has no attribute 'invalidated'"))) /\
  need_reconfiguration running = false.
Proof.
  split; [reflexivity|].
  exact (proj1 (execute_raises_only (A:=unit) running running
                  list_iterator list_iterator [] []
                  (Raise (Exc connection_closed)) [] _
                  reachable_running eq_refl)).
Defined.

End EngineMoreWitnesses.

Section PipelineRestWitnesses.

Import Pipeline PipelineRest.

Lemma init_rest_never_completes_witness :
  instance_with_my_rank !! "execution" = None /\
  init_rest four_ranks instance_with_my_rank (fun self _ => Ok self) <>
  Ok instance_with_my_rank.
Proof.
  assert (Hnone : instance_with_my_rank !! "execution" = None)
    by reflexivity.
  split; [exact Hnone|].
  exact (init_rest_never_completes four_ranks instance_with_my_rank
           (fun self _ => Ok self) Hnone instance_with_my_rank).
Defined.

(** Rank 2 is the first of the second stage: its previous rank is rank 0,
    whose next rank it is. *)
Lemma neighbour_ranks_witness :
  [0; 1; 2; 3]%Z !! 2%nat = Some 2%Z /\
  next_rank [0; 1; 2; 3]%Z 2 0 = Ok (PyInt 2).
Proof.
  split; [reflexivity|].
  exact (proj1 (proj2 (proj2
           (neighbour_ranks [0; 1; 2; 3]%Z 2 2 2%Z eq_refl)))
           (le_n 2)).
Defined.

End PipelineRestWitnesses.
